(** * maker.js path kernel: break, mirror, move, rotate, scale, equality

    A shallow embedding of [src/core/break.ts], of the [MakerJs.path]
    module (clone / mirror / move / moveRelative / moveTemporary / rotate /
    scale and [areEqual]) with its two earlier states, of the coordinate
    fix and the output buffer of [exporter.toSVG], and of the type tests
    and [extendObject] of the root module.

    - A path is a JS object with the common [IPath] header ([origin],
      optional [layer]) and the fields of its variant; the [type] tag is
      read off the variant.
    - Functions that mutate their argument return the argument as it is
      after the call, next to their JS result.
    - Numbers are kept abstract ([JsNumber]); the namespaces [point],
      [angle], [measure] and [bezier], which the path code calls but which
      are not part of the sources at hand, are interfaces, one operation
      each.  Two number instances are given: IEEE doubles (what a JS
      number is) and canonical rationals (exact arithmetic). *)

From Stdlib Require Import ZArith QArith Qcanon Qround Uint63 Floats.PrimFloat String Bool Lia.
From stdpp Require Import base list strings gmap.

Set Implicit Arguments.
Local Open Scope Z_scope.

(** ** Numbers *)

(** The operations the path code applies to a JS number directly. *)
Class JsNumber (num : Type) := {
  nadd : num -> num -> num;     (* a + b *)
  nsub : num -> num -> num;     (* a - b *)
  nmul : num -> num -> num;     (* a * b *)
  neqb : num -> num -> bool;    (* a == b *)
  nlit : Z -> num;              (* an integer literal *)
  truthy : num -> bool          (* ToBoolean: false for 0 and NaN *)
}.

Declare Scope js_scope.
Delimit Scope js_scope with js.
Infix "+" := nadd : js_scope.
Infix "-" := nsub : js_scope.
Infix "*" := nmul : js_scope.
Infix "==" := neqb (at level 70, no associativity) : js_scope.

(** [a || b] on an optional number: [undefined], 0 and NaN fall through. *)
Definition orElse {num} `{JsNumber num} (a : option num) (b : num) : num :=
  match a with
  | Some x => if truthy x then x else b
  | None => b
  end.

(** A [for] loop over an array whose body returns from the enclosing
    function at the first element for which it yields a value. *)
Fixpoint forReturn {A B : Type} (body : A -> option B) (arr : list A) : option B :=
  match arr with
  | [] => None
  | x :: rest =>
      match body x with
      | Some r => Some r
      | None => forReturn body rest
      end
  end.

(** ** Data model *)

(** [IPoint]: a two-element array. *)
Definition IPoint (num : Type) : Type := (num * num)%type.

Module pathType.
Inductive t := Line | Circle | Bezier | Arc.
End pathType.

(** The fields a variant adds to the [IPath] header. *)
Inductive Geometry (num : Type) :=
| OfLine (end_ : IPoint num)
| OfCircle (radius : num)
| OfArc (radius startAngle endAngle : num)
| OfBezier (end_ : IPoint num) (control : option (IPoint num)) (controls : list (IPoint num)).

Arguments OfLine {num} _.
Arguments OfCircle {num} _.
Arguments OfArc {num} _ _ _.
Arguments OfBezier {num} _ _ _.

Record IPath (num : Type) := {
  origin : IPoint num;
  layer : option string;        (* [None]: no 'layer' property *)
  geometry : Geometry num
}.

Arguments origin {num} _.
Arguments layer {num} _.
Arguments geometry {num} _.

Definition type {num} (p : IPath num) : pathType.t :=
  match geometry p with
  | OfLine _ => pathType.Line
  | OfCircle _ => pathType.Circle
  | OfArc _ _ _ => pathType.Arc
  | OfBezier _ _ _ => pathType.Bezier
  end.

(** Field assignments. *)
Definition set_origin {num} (o : IPoint num) (p : IPath num) : IPath num :=
  {| origin := o; layer := layer p; geometry := geometry p |}.

Definition set_layer {num} (l : option string) (p : IPath num) : IPath num :=
  {| origin := origin p; layer := l; geometry := geometry p |}.

Definition set_geometry {num} (g : Geometry num) (p : IPath num) : IPath num :=
  {| origin := origin p; layer := layer p; geometry := g |}.

(** ** The namespaces the path code calls *)

Module point.
Class Add (num : Type) := add : IPoint num -> IPoint num -> bool -> IPoint num.
Class Mirror (num : Type) := mirror : IPoint num -> bool -> bool -> IPoint num.
Class Rotate (num : Type) := rotate : IPoint num -> num -> IPoint num -> IPoint num.
Class AreEqual (num : Type) := areEqual : IPoint num -> IPoint num -> option num -> bool.
Class Clone (num : Type) := clone : IPoint num -> IPoint num.
Class Subtract (num : Type) := subtract : IPoint num -> IPoint num -> IPoint num.
Class Scale (num : Type) := scale : IPoint num -> num -> IPoint num.
End point.

Module angle.
Class NoRevolutions (num : Type) := noRevolutions : num -> num.
Class OfArcEnd (num : Type) := ofArcEnd : IPath num -> num.
Class OfPointInDegrees (num : Type) := ofPointInDegrees : IPoint num -> IPoint num -> num.
Class Mirror (num : Type) := mirror : num -> bool -> bool -> num.
Class AreEqual (num : Type) := areEqual : num -> num -> bool.
End angle.

Module measure.
Class IsAngleEqual (num : Type) := isAngleEqual : num -> num -> bool.
Class IsBetween (num : Type) := isBetween : num -> num -> num -> bool -> bool.
Class IsBetweenPoints (num : Type) := isBetweenPoints : IPoint num -> IPath num -> bool -> bool.
End measure.

Module bezier.
(** [breakAt(bez, t)]: the curve after the call, and the piece returned. *)
Class BreakAt (num : Type) := breakAt : IPath num -> option num -> IPath num * option (IPath num).
End bezier.

(** ** Constructors of [paths] *)

Module paths.
(** Modelled from the spec: the classes [paths.Line], [paths.Circle],
    [paths.Arc] and [paths.Bezier] are not in the sources; each builds a
    path of its variant from its arguments, with no layer. *)
Definition Line {num} (origin end_ : IPoint num) : IPath num :=
  {| origin := origin; layer := None; geometry := OfLine end_ |}.

Definition Circle {num} (origin : IPoint num) (radius : num) : IPath num :=
  {| origin := origin; layer := None; geometry := OfCircle radius |}.

Definition Arc {num} (origin : IPoint num) (radius startAngle endAngle : num) : IPath num :=
  {| origin := origin; layer := None; geometry := OfArc radius startAngle endAngle |}.

(** Modelled from the spec: [new paths.Bezier(points)] takes the first
    point as origin and the last as end; the points between are the
    controls, one control point staying a single [control]. *)
Definition Bezier {num} (points : list (IPoint num)) : option (IPath num) :=
  match points with
  | [] => None
  | o :: rest =>
      match List.rev rest with
      | [] => None
      | e :: mid =>
          Some {| origin := o; layer := None;
                  geometry := match List.rev mid with
                              | [c] => OfBezier e (Some c) []
                              | cs => OfBezier e None cs
                              end |}
      end
  end.

(** Modelled from the spec: [new paths.Bezier(origin, control, end)] and
    [new paths.Bezier(origin, controls, end)] build the curve from its
    origin, its one control point or its array of control points, and its
    end. *)
Definition BezierOf {num} (origin : IPoint num) (control : IPoint num + list (IPoint num))
    (end_ : IPoint num) : IPath num :=
  {| origin := origin; layer := None;
     geometry := match control with
                 | inl c => OfBezier end_ (Some c) []
                 | inr cs => OfBezier end_ None cs
                 end |}.
End paths.

(** ** The [path] module *)

Module path.
Section Path.
Context {num : Type} `{JsNumber num}.
Context `{point.Add num, point.Mirror num, point.Rotate num, point.AreEqual num}.
Context `{point.Clone num, point.Subtract num, point.Scale num}.
Context `{angle.NoRevolutions num, angle.OfArcEnd num, angle.OfPointInDegrees num,
          angle.Mirror num, angle.AreEqual num}.
Context `{measure.IsAngleEqual num, measure.IsBetween num, measure.IsBetweenPoints num}.
Context `{bezier.BreakAt num}.

Local Open Scope js_scope.

Definition copyLayer (pathA pathB : option (IPath num)) : option (IPath num) :=
  match pathA, pathB with
  | Some a, Some b =>
      match layer a with
      | Some l => Some (set_layer (Some l) b)
      | None => Some b
      end
  | _, _ => pathB
  end.

(** *** clone *)

Definition clone (pathToClone : IPath num) : option (IPath num) :=
  let result :=
    match geometry pathToClone with
    | OfArc radius startAngle endAngle =>
        Some (paths.Arc (point.clone (origin pathToClone)) radius startAngle endAngle)
    | OfCircle radius =>
        Some (paths.Circle (point.clone (origin pathToClone)) radius)
    | OfLine end_ =>
        Some (paths.Line (point.clone (origin pathToClone)) (point.clone end_))
    | OfBezier end_ (Some control) _ =>
        Some (paths.BezierOf (point.clone (origin pathToClone)) (inl (point.clone control))
                (point.clone end_))
    | OfBezier end_ None controls =>
        Some (paths.BezierOf (point.clone (origin pathToClone))
                (inr (List.map (fun control => point.clone control) controls))
                (point.clone end_))
    end in
  copyLayer (Some pathToClone) result.

(** *** mirror *)

Definition mirrorMap_Line (end_ : IPoint num) (origin : IPoint num) (mirrorX mirrorY : bool) : IPath num :=
  paths.Line origin (point.mirror end_ mirrorX mirrorY).

Definition mirrorMap_Circle (radius : num) (origin : IPoint num) : IPath num :=
  paths.Circle origin radius.

Definition mirrorMap_Arc (arc : IPath num) (radius arcStartAngle : num)
    (origin : IPoint num) (mirrorX mirrorY : bool) : IPath num :=
  let startAngle := angle.mirror arcStartAngle mirrorX mirrorY in
  let endAngle := angle.mirror (angle.ofArcEnd arc) mirrorX mirrorY in
  let xor := xorb mirrorX mirrorY in
  paths.Arc origin radius
    (if xor then endAngle else startAngle)
    (if xor then startAngle else endAngle).

Definition mirrorMap_Bezier (bez : IPath num) (end_ : IPoint num) (control : option (IPoint num))
    (controls : list (IPoint num)) (mirrorX mirrorY : bool) : option (IPath num) :=
  let points :=
    [origin bez] ++ (match control with Some c => [c] | None => controls end) ++ [end_] in
  let mirroredPoints := List.map (fun p => point.mirror p mirrorX mirrorY) points in
  paths.Bezier mirroredPoints.

(** [mirrorMap[pathToMirror.type]] applied; all four tags have an entry. *)
Definition mirrorMap (pathToMirror : IPath num) (origin : IPoint num) (mirrorX mirrorY : bool)
  : option (IPath num) :=
  match geometry pathToMirror with
  | OfLine e => Some (mirrorMap_Line e origin mirrorX mirrorY)
  | OfCircle r => Some (mirrorMap_Circle r origin)
  | OfArc r s _ => Some (mirrorMap_Arc pathToMirror r s origin mirrorX mirrorY)
  | OfBezier e c cs => mirrorMap_Bezier pathToMirror e c cs mirrorX mirrorY
  end.

Definition mirror (pathToMirror : option (IPath num)) (mirrorX mirrorY : bool) : option (IPath num) :=
  let newPath :=
    match pathToMirror with
    | Some p =>
        let origin := point.mirror (origin p) mirrorX mirrorY in
        mirrorMap p origin mirrorX mirrorY
    | None => None
    end in
  copyLayer pathToMirror newPath.

(** *** move *)

Definition movePoint (p oldOrigin newOrigin : IPoint num) : IPoint num :=
  let delta := point.subtract p oldOrigin in
  point.add newOrigin delta false.

(** [moveMap[pathToMove.type]] applied; [None] where the map has no entry
    (circle and arc).  The entries read the path's origin while it is
    still the old one. *)
Definition moveMap (pathToMove : IPath num) (origin_ : IPoint num) : option (IPath num) :=
  match geometry pathToMove with
  | OfLine e =>
      Some (set_geometry (OfLine (movePoint e (origin pathToMove) origin_)) pathToMove)
  | OfBezier e c cs =>
      let e' := movePoint e (origin pathToMove) origin_ in
      match c with
      | Some c =>
          Some (set_geometry
                  (OfBezier e' (Some (movePoint c (origin pathToMove) origin_)) cs)
                  pathToMove)
      | None =>
          Some (set_geometry
                  (OfBezier e' None
                     (List.map (fun p => movePoint p (origin pathToMove) origin_) cs))
                  pathToMove)
      end
  | _ => None
  end.

Definition move (pathToMove : option (IPath num)) (origin_ : IPoint num) : option (IPath num) :=
  match pathToMove with
  | Some p =>
      let p1 := match moveMap p origin_ with
                | Some p1 => p1
                | None => p
                end in
      Some (set_origin origin_ p1)
  | None => None
  end.

(** *** moveRelative and moveTemporary *)

(** [moveRelativeMap[pathToMove.type]] applied; [None] where the map has
    no entry (circle and arc). *)
Definition moveRelativeMap (pathToMove : IPath num) (delta : IPoint num) (subtract : bool)
  : option (IPath num) :=
  match geometry pathToMove with
  | OfLine e => Some (set_geometry (OfLine (point.add e delta subtract)) pathToMove)
  | OfBezier e c cs =>
      let e' := point.add e delta subtract in
      match c with
      | Some c => Some (set_geometry (OfBezier e' (Some (point.add c delta subtract)) cs) pathToMove)
      | None =>
          Some (set_geometry
                  (OfBezier e' None (List.map (fun p => point.add p delta subtract) cs))
                  pathToMove)
      end
  | _ => None
  end.

Definition moveRelative (pathToMove : option (IPath num)) (delta : option (IPoint num))
    (subtract : bool) : option (IPath num) :=
  match pathToMove, delta with
  | Some p, Some d =>
      let p1 := set_origin (point.add (origin p) d subtract) p in
      match moveRelativeMap p1 d subtract with
      | Some p2 => Some p2
      | None => Some p1
      end
  | _, _ => pathToMove
  end.

(** The points a path holds, which the transformations read and assign:
    the origin, and for a line or a curve the end and the control point or
    points.  (Not a function of the module: the vocabulary of the
    statements about the transformations.) *)
Definition pointsOf (pathToMove : IPath num) : list (IPoint num) :=
  origin pathToMove
  :: match geometry pathToMove with
     | OfLine e => [e]
     | OfBezier e (Some c) _ => [e; c]
     | OfBezier e None cs => e :: cs
     | _ => []
     end.

(** What a task run by [moveTemporary] can reach: the path objects (by
    address), the array of paths (addresses) and the array of deltas. *)
Record Store := {
  heap : list (IPath num);
  pathsToMove : list nat;
  deltas : list (option (IPoint num))
}.

(** The inner function [move(pathToOffset, i)], acting on the heap. *)
Definition moveTemporary_move (subtract : bool) (deltas : list (option (IPoint num)))
    (h : list (IPath num)) (pathToOffset : nat) (i : nat) : list (IPath num) :=
  match deltas !! i with
  | Some (Some d) =>
      match moveRelative (h !! pathToOffset) (Some d) subtract with
      | Some p' => <[pathToOffset := p']> h
      | None => h
      end
  | _ => h
  end.

(** [pathsToMove.map(move)], from index [i] on. *)
Fixpoint mapMoveFrom (subtract : bool) (deltas : list (option (IPoint num)))
    (i : nat) (arr : list nat) (h : list (IPath num)) : list (IPath num) :=
  match arr with
  | [] => h
  | r :: rest =>
      mapMoveFrom subtract deltas (S i) rest (moveTemporary_move subtract deltas h r i)
  end.

Definition mapMove (subtract : bool) (st : Store) : Store :=
  {| heap := mapMoveFrom subtract (deltas st) 0 (pathsToMove st) (heap st);
     pathsToMove := pathsToMove st;
     deltas := deltas st |}.

Definition moveTemporary (task : Store -> Store) (st : Store) : Store :=
  let st1 := mapMove false st in
  let st2 := task st1 in
  mapMove true st2.

(** *** rotate *)

(** [rotateMap[pathToRotate.type]] applied; no entry for a circle. *)
Definition rotateMap (pathToRotate : IPath num) (angleInDegrees : num) (rotationOrigin : IPoint num)
  : option (IPath num) :=
  match geometry pathToRotate with
  | OfLine e =>
      Some (set_geometry (OfLine (point.rotate e angleInDegrees rotationOrigin)) pathToRotate)
  | OfArc r s e =>
      let s' := angle.noRevolutions (s + angleInDegrees) in
      let e' := angle.noRevolutions (e + angleInDegrees) in
      Some (set_geometry (OfArc r s' e') pathToRotate)
  | OfBezier e c cs =>
      let e' := point.rotate e angleInDegrees rotationOrigin in
      match c with
      | Some c =>
          Some (set_geometry
                  (OfBezier e' (Some (point.rotate c angleInDegrees rotationOrigin)) cs)
                  pathToRotate)
      | None =>
          Some (set_geometry
                  (OfBezier e' None
                     (List.map (fun p => point.rotate p angleInDegrees rotationOrigin) cs))
                  pathToRotate)
      end
  | OfCircle _ => None
  end.

Definition rotate (pathToRotate : option (IPath num)) (angleInDegrees : num)
    (rotationOrigin : IPoint num) : option (IPath num) :=
  match pathToRotate with
  | None => None
  | Some p =>
      if angleInDegrees == nlit 0 then Some p
      else
        let p1 := set_origin (point.rotate (origin p) angleInDegrees rotationOrigin) p in
        match rotateMap p1 angleInDegrees rotationOrigin with
        | Some p2 => Some p2
        | None => Some p1
        end
  end.

(** *** scale *)

(** [scaleMap[pathValue.type]] applied; every tag has an entry, the arc's
    being the circle's. *)
Definition scaleMap (pathValue : IPath num) (scaleValue : num) : IPath num :=
  match geometry pathValue with
  | OfLine e => set_geometry (OfLine (point.scale e scaleValue)) pathValue
  | OfCircle r => set_geometry (OfCircle (r * scaleValue)) pathValue
  | OfArc r s e => set_geometry (OfArc (r * scaleValue) s e) pathValue
  | OfBezier e c cs =>
      let e' := point.scale e scaleValue in
      match c with
      | Some c => set_geometry (OfBezier e' (Some (point.scale c scaleValue)) cs) pathValue
      | None =>
          set_geometry (OfBezier e' None (List.map (fun p => point.scale p scaleValue) cs))
            pathValue
      end
  end.

Definition scale (pathToScale : option (IPath num)) (scaleValue : num) : option (IPath num) :=
  match pathToScale with
  | None => None
  | Some p =>
      if scaleValue == nlit 1 then Some p
      else
        let p1 := set_origin (point.scale (origin p) scaleValue) p in
        Some (scaleMap p1 scaleValue)
  end.

(** *** areEqual *)

Definition pathAreEqualMap_Line (o1 e1 o2 e2 : IPoint num) (withinPointDistance : option num) : bool :=
  (point.areEqual o1 o2 withinPointDistance && point.areEqual e1 e2 withinPointDistance)
  || (point.areEqual o1 e2 withinPointDistance && point.areEqual e1 o2 withinPointDistance).

Definition pathAreEqualMap_Circle (o1 : IPoint num) (r1 : num) (o2 : IPoint num) (r2 : num)
    (withinPointDistance : option num) : bool :=
  point.areEqual o1 o2 withinPointDistance && (r1 == r2).

Definition pathAreEqualMap_Arc (o1 : IPoint num) (r1 s1 e1 : num) (o2 : IPoint num) (r2 s2 e2 : num)
    (withinPointDistance : option num) : bool :=
  pathAreEqualMap_Circle o1 r1 o2 r2 withinPointDistance
  && angle.areEqual s1 s2 && angle.areEqual e1 e2.

(** [pathAreEqualMap[path1.type]] applied to two paths of one type; the
    result is a JS boolean or [null] ([None]), which the Bezier entry
    returns. *)
Definition pathAreEqualMap (path1 path2 : IPath num) (withinPointDistance : option num)
  : option bool :=
  match geometry path1, geometry path2 with
  | OfLine e1, OfLine e2 =>
      Some (pathAreEqualMap_Line (origin path1) e1 (origin path2) e2 withinPointDistance)
  | OfCircle r1, OfCircle r2 =>
      Some (pathAreEqualMap_Circle (origin path1) r1 (origin path2) r2 withinPointDistance)
  | OfArc r1 s1 e1, OfArc r2 s2 e2 =>
      Some (pathAreEqualMap_Arc (origin path1) r1 s1 e1 (origin path2) r2 s2 e2 withinPointDistance)
  | OfBezier _ _ _, OfBezier _ _ _ => None
  | _, _ => Some false
  end.

#[local] Instance pathType_eq_dec : EqDecision pathType.t.
Proof. solve_decision. Defined.

Definition areEqual (path1 path2 : IPath num) (withinPointDistance : option num) : option bool :=
  if decide (type path1 = type path2)
  then pathAreEqualMap path1 path2 withinPointDistance
  else Some false.

(** *** breakAtPoint ([src/core/break.ts]) *)

(** Every entry of [breakPathFunctionMap] yields the path as it is after
    the call and the value returned. *)

Definition getAngleStrictlyBetweenArcAngles (arc : IPath num) (arcStartAngle : num)
    (angleAtBreakPoint : num) : option num :=
  let startAngle := angle.noRevolutions arcStartAngle in
  let endAngle := startAngle + angle.ofArcEnd arc - arcStartAngle in
  let tries := [nlit 0; nlit 1; nlit (-1)] in
  forReturn
    (fun t =>
       let add := nlit 360 * t in
       if measure.isBetween (angleAtBreakPoint + add) startAngle endAngle true
       then Some (arcStartAngle + angleAtBreakPoint + add - startAngle)
       else None)
    tries.

Definition breakPathFunctionMap_Arc (arc : IPath num) (radius startAngle endAngle : num)
    (pointOfBreak : IPoint num) (angleOfBreak tOfBreak : option num)
  : IPath num * option (IPath num) :=
  let angleAtBreakPoint := orElse angleOfBreak (angle.ofPointInDegrees (origin arc) pointOfBreak) in
  if measure.isAngleEqual angleAtBreakPoint startAngle
     || measure.isAngleEqual angleAtBreakPoint endAngle
  then (arc, None)
  else
    match getAngleStrictlyBetweenArcAngles arc startAngle angleAtBreakPoint with
    | None => (arc, None)
    | Some angleAtBreakPointBetween =>
        let savedEndAngle := endAngle in
        let arc' := set_geometry (OfArc radius startAngle angleAtBreakPointBetween) arc in
        (arc', Some (paths.Arc (origin arc') radius angleAtBreakPointBetween savedEndAngle))
    end.

Definition breakPathFunctionMap_Circle (circle : IPath num) (radius : num)
    (pointOfBreak : IPoint num) : IPath num * option (IPath num) :=
  let angleAtBreakPoint := angle.ofPointInDegrees (origin circle) pointOfBreak in
  (set_geometry (OfArc radius angleAtBreakPoint (angleAtBreakPoint + nlit 360)) circle, None).

Definition breakPathFunctionMap_Line (line : IPath num) (end_ : IPoint num)
    (pointOfBreak : IPoint num) : IPath num * option (IPath num) :=
  if negb (measure.isBetweenPoints pointOfBreak line true)
  then (line, None)
  else
    let savedEndPoint := end_ in
    (set_geometry (OfLine pointOfBreak) line, Some (paths.Line pointOfBreak savedEndPoint)).

Definition breakPathFunctionMap_Bezier (bez : IPath num) (tOfBreak : option num)
  : IPath num * option (IPath num) :=
  bezier.breakAt bez tOfBreak.

(** [breakPathFunctionMap[pathToBreak.type]] applied. *)
Definition breakPathFunctionMap (pathToBreak : IPath num) (pointOfBreak : IPoint num)
    (angleOfBreak tOfBreak : option num) : IPath num * option (IPath num) :=
  match geometry pathToBreak with
  | OfArc r s e => breakPathFunctionMap_Arc pathToBreak r s e pointOfBreak angleOfBreak tOfBreak
  | OfCircle r => breakPathFunctionMap_Circle pathToBreak r pointOfBreak
  | OfLine e => breakPathFunctionMap_Line pathToBreak e pointOfBreak
  | OfBezier _ _ _ => breakPathFunctionMap_Bezier pathToBreak tOfBreak
  end.

(** The first component is [pathToBreak] after the call, the second the
    value returned ([None] is [null]). *)
Definition breakAtPoint (pathToBreak : option (IPath num)) (pointOfBreak : option (IPoint num))
    (angleOfBreak tOfBreak : option num) : option (IPath num) * option (IPath num) :=
  match pathToBreak, pointOfBreak with
  | Some p, Some pt =>
      let '(p', result) := breakPathFunctionMap p pt angleOfBreak tOfBreak in
      match result, layer p' with
      | Some r, Some l => (Some p', Some (set_layer (Some l) r))
      | _, _ => (Some p', result)
      end
  | _, _ => (pathToBreak, None)
  end.

End Path.
End path.

(** ** The path module as it was before *)

(** The sources hold two earlier states of the module.  In the first the
    maps are built inside each call and nothing handles a curve; there is
    no layer yet. *)
Module path_v1.
Section PathV1.
Context {num : Type} `{JsNumber num}.
Context `{point.Add num, point.Mirror num, point.Rotate num}.
Context `{point.Subtract num, point.Scale num}.
Context `{angle.NoRevolutions num, angle.OfArcEnd num, angle.Mirror num}.

Local Open Scope js_scope.

(** The entries of the map assign [newPath]; the entry for a curve assigns
    nothing.  [newId] is not read. *)
Definition mirror (pathToMirror : option (IPath num)) (mirrorX mirrorY : bool)
    (newId : option string) : option (IPath num) :=
  match pathToMirror with
  | Some p =>
      let origin_ := point.mirror (origin p) mirrorX mirrorY in
      match geometry p with
      | OfLine end_ => Some (paths.Line origin_ (point.mirror end_ mirrorX mirrorY))
      | OfCircle radius => Some (paths.Circle origin_ radius)
      | OfArc radius arcStartAngle _ =>
          let startAngle := angle.mirror arcStartAngle mirrorX mirrorY in
          let endAngle := angle.mirror (angle.ofArcEnd p) mirrorX mirrorY in
          let xor := xorb mirrorX mirrorY in
          Some (paths.Arc origin_ radius
                  (if xor then endAngle else startAngle)
                  (if xor then startAngle else endAngle))
      | OfBezier _ _ _ => None
      end
  | None => None
  end.

Definition move (pathToMove : option (IPath num)) (origin_ : IPoint num) : option (IPath num) :=
  match pathToMove with
  | Some p =>
      let p1 :=
        match geometry p with
        | OfLine end_ =>
            let delta := point.subtract end_ (origin p) in
            set_geometry (OfLine (point.add origin_ delta false)) p
        | _ => p
        end in
      Some (set_origin origin_ p1)
  | None => None
  end.

(** There is no [subtract] yet, and the delta is not tested. *)
Definition moveRelative (pathToMove : option (IPath num)) (delta : IPoint num)
  : option (IPath num) :=
  match pathToMove with
  | Some p =>
      let p1 := set_origin (point.add (origin p) delta false) p in
      match geometry p1 with
      | OfLine end_ => Some (set_geometry (OfLine (point.add end_ delta false)) p1)
      | _ => Some p1
      end
  | None => None
  end.

Definition rotate (pathToRotate : option (IPath num)) (angleInDegrees : num)
    (rotationOrigin : IPoint num) : option (IPath num) :=
  match pathToRotate with
  | None => None
  | Some p =>
      if angleInDegrees == nlit 0 then Some p
      else
        let p1 := set_origin (point.rotate (origin p) angleInDegrees rotationOrigin) p in
        match geometry p1 with
        | OfLine end_ =>
            Some (set_geometry (OfLine (point.rotate end_ angleInDegrees rotationOrigin)) p1)
        | OfArc radius startAngle endAngle =>
            Some (set_geometry
                    (OfArc radius (angle.noRevolutions (startAngle + angleInDegrees))
                       (angle.noRevolutions (endAngle + angleInDegrees)))
                    p1)
        | _ => Some p1
        end
  end.

Definition scale (pathToScale : option (IPath num)) (scaleValue : num) : option (IPath num) :=
  match pathToScale with
  | None => None
  | Some p =>
      if scaleValue == nlit 1 then Some p
      else
        let p1 := set_origin (point.scale (origin p) scaleValue) p in
        match geometry p1 with
        | OfLine end_ => Some (set_geometry (OfLine (point.scale end_ scaleValue)) p1)
        | OfCircle radius => Some (set_geometry (OfCircle (radius * scaleValue)) p1)
        | OfArc radius startAngle endAngle =>
            Some (set_geometry (OfArc (radius * scaleValue) startAngle endAngle) p1)
        | OfBezier _ _ _ => Some p1
        end
  end.

End PathV1.
End path_v1.

(** In the second state the maps are those of the module as it is now,
    with layers and [subtract]; the entries for a curve are stubs, and
    [clone] and [rotateMap] have none. *)
Module path_v2.
Section PathV2.
Context {num : Type} `{JsNumber num}.
Context `{point.Add num, point.Mirror num, point.Rotate num}.
Context `{point.Clone num, point.Subtract num, point.Scale num}.
Context `{angle.NoRevolutions num, angle.OfArcEnd num, angle.Mirror num}.

Local Open Scope js_scope.

Definition copyLayer (pathA pathB : option (IPath num)) : option (IPath num) :=
  match pathA, pathB with
  | Some a, Some b =>
      match layer a with
      | Some l => Some (set_layer (Some l) b)
      | None => Some b
      end
  | _, _ => pathB
  end.

Definition clone (pathToClone : IPath num) : option (IPath num) :=
  let result :=
    match geometry pathToClone with
    | OfArc radius startAngle endAngle =>
        Some (paths.Arc (point.clone (origin pathToClone)) radius startAngle endAngle)
    | OfCircle radius =>
        Some (paths.Circle (point.clone (origin pathToClone)) radius)
    | OfLine end_ =>
        Some (paths.Line (point.clone (origin pathToClone)) (point.clone end_))
    | OfBezier _ _ _ => None
    end in
  copyLayer (Some pathToClone) result.

Definition mirrorMap (pathToMirror : IPath num) (origin_ : IPoint num) (mirrorX mirrorY : bool)
  : option (IPath num) :=
  match geometry pathToMirror with
  | OfLine end_ => Some (paths.Line origin_ (point.mirror end_ mirrorX mirrorY))
  | OfCircle radius => Some (paths.Circle origin_ radius)
  | OfArc radius arcStartAngle _ =>
      let startAngle := angle.mirror arcStartAngle mirrorX mirrorY in
      let endAngle := angle.mirror (angle.ofArcEnd pathToMirror) mirrorX mirrorY in
      let xor := xorb mirrorX mirrorY in
      Some (paths.Arc origin_ radius
              (if xor then endAngle else startAngle)
              (if xor then startAngle else endAngle))
  | OfBezier _ _ _ => None
  end.

Definition mirror (pathToMirror : option (IPath num)) (mirrorX mirrorY : bool)
    (newId : option string) : option (IPath num) :=
  let newPath :=
    match pathToMirror with
    | Some p =>
        let origin_ := point.mirror (origin p) mirrorX mirrorY in
        mirrorMap p origin_ mirrorX mirrorY
    | None => None
    end in
  copyLayer pathToMirror newPath.

(** [moveMap[pathToMove.type]] applied: the entry for a line, the stub for
    a curve, [None] for the other types. *)
Definition moveMap (pathToMove : IPath num) (origin_ : IPoint num) : option (IPath num) :=
  match geometry pathToMove with
  | OfLine end_ =>
      let delta := point.subtract end_ (origin pathToMove) in
      Some (set_geometry (OfLine (point.add origin_ delta false)) pathToMove)
  | OfBezier _ _ _ => Some pathToMove
  | _ => None
  end.

Definition move (pathToMove : option (IPath num)) (origin_ : IPoint num) : option (IPath num) :=
  match pathToMove with
  | Some p =>
      let p1 := match moveMap p origin_ with
                | Some p1 => p1
                | None => p
                end in
      Some (set_origin origin_ p1)
  | None => None
  end.

Definition moveRelativeMap (pathToMove : IPath num) (delta : IPoint num) (subtract : bool)
  : option (IPath num) :=
  match geometry pathToMove with
  | OfLine end_ => Some (set_geometry (OfLine (point.add end_ delta subtract)) pathToMove)
  | OfBezier _ _ _ => Some pathToMove
  | _ => None
  end.

Definition moveRelative (pathToMove : option (IPath num)) (delta : option (IPoint num))
    (subtract : bool) : option (IPath num) :=
  match pathToMove, delta with
  | Some p, Some d =>
      let p1 := set_origin (point.add (origin p) d subtract) p in
      match moveRelativeMap p1 d subtract with
      | Some p2 => Some p2
      | None => Some p1
      end
  | _, _ => pathToMove
  end.

Definition rotateMap (pathToRotate : IPath num) (angleInDegrees : num)
    (rotationOrigin : IPoint num) : option (IPath num) :=
  match geometry pathToRotate with
  | OfLine end_ =>
      Some (set_geometry (OfLine (point.rotate end_ angleInDegrees rotationOrigin))
              pathToRotate)
  | OfArc radius startAngle endAngle =>
      Some (set_geometry
              (OfArc radius (angle.noRevolutions (startAngle + angleInDegrees))
                 (angle.noRevolutions (endAngle + angleInDegrees)))
              pathToRotate)
  | _ => None
  end.

Definition rotate (pathToRotate : option (IPath num)) (angleInDegrees : num)
    (rotationOrigin : IPoint num) : option (IPath num) :=
  match pathToRotate with
  | None => None
  | Some p =>
      if angleInDegrees == nlit 0 then Some p
      else
        let p1 := set_origin (point.rotate (origin p) angleInDegrees rotationOrigin) p in
        match rotateMap p1 angleInDegrees rotationOrigin with
        | Some p2 => Some p2
        | None => Some p1
        end
  end.

Definition scaleMap (pathValue : IPath num) (scaleValue : num) : IPath num :=
  match geometry pathValue with
  | OfLine end_ => set_geometry (OfLine (point.scale end_ scaleValue)) pathValue
  | OfCircle radius => set_geometry (OfCircle (radius * scaleValue)) pathValue
  | OfArc radius startAngle endAngle =>
      set_geometry (OfArc (radius * scaleValue) startAngle endAngle) pathValue
  | OfBezier _ _ _ => pathValue
  end.

Definition scale (pathToScale : option (IPath num)) (scaleValue : num) : option (IPath num) :=
  match pathToScale with
  | None => None
  | Some p =>
      if scaleValue == nlit 1 then Some p
      else
        let p1 := set_origin (point.scale (origin p) scaleValue) p in
        Some (scaleMap p1 scaleValue)
  end.

End PathV2.
End path_v2.

(** ** The coordinate fix of [exporter.toSVG] *)

Module exporter.
Section Exporter.
Context {num : Type} `{JsNumber num}.
Context `{point.Add num, point.Mirror num, point.Scale num}.
Context `{angle.OfArcEnd num, angle.Mirror num}.

(** The inner functions [fixPoint] and [fixPath] of [toSVG]; [opts_scale]
    is [opts.scale] of the enclosing call. *)
Definition fixPoint (opts_scale : num) (pointToFix : IPoint num) : IPoint num :=
  let pointMirroredY := point.mirror pointToFix false true in
  point.scale pointMirroredY opts_scale.

Definition fixPath (opts_scale : num) (pathToFix : option (IPath num))
    (origin_ : option (IPoint num)) : option (IPath num) :=
  let mirrorY := path.mirror pathToFix false true in
  path.moveRelative (path.scale mirrorY opts_scale) origin_ false.

End Exporter.

(** What [toSVG] has written so far: the top-level [elements], and the
    elements of each layer. *)
Record Output := {
  elements : list string;
  layers : gmap string (list string)
}.

Section Append.
(** The names that [layer in layers] finds on the plain object [layers]
    without their being properties of its own: the property names of
    [Object.prototype], which the sources do not list. *)
Variable inherited : string -> bool.

(** The inner function [append(value, layer)]; a layer that is absent or
    the empty string is falsy.  Where [layer in layers] holds through an
    inherited name, no array is made, [layers[layer]] is the inherited
    value, which has no [push], and the call throws ([None]). *)
Definition append (value : string) (layer : option string) (out : Output) : option Output :=
  match layer with
  | Some l =>
      if decide (l = EmptyString)
      then Some {| elements := elements out ++ [value]; layers := layers out |}
      else
        match layers out !! l with
        | Some inLayer =>
            Some {| elements := elements out;
                    layers := <[l := inLayer ++ [value]]> (layers out) |}
        | None =>
            if inherited l then None
            else Some {| elements := elements out;
                         layers := <[l := [] ++ [value]]> (layers out) |}
        end
  | None => Some {| elements := elements out ++ [value]; layers := layers out |}
  end.

(** A sequence of calls, from the empty output; a call that throws ends
    [toSVG]. *)
Definition appendAll (calls : list (string * option string)) : option Output :=
  fold_left
    (fun out c => match out with
                  | Some out => append (fst c) (snd c) out
                  | None => None
                  end)
    calls (Some {| elements := []; layers := ∅ |}).

End Append.

End exporter.

(** ** The type tests of the root module *)

Module MakerJs.
Section Tests.
Context {num : Type} `{JsNumber num}.

(** The tests are applied to a path object or to null; the answer is the
    truth value of the JS result.  A path object has a type tag and an
    origin, and a line has an end. *)
Definition isPath (item : option (IPath num)) : bool :=
  match item with
  | Some _ => true
  | None => false
  end.

Definition isPathLine (item : option (IPath num)) : bool :=
  isPath item
  && match item with
     | Some p => match geometry p with OfLine _ => true | _ => false end
     | None => false
     end.

Definition isPathCircle (item : option (IPath num)) : bool :=
  isPath item
  && match item with
     | Some p => match geometry p with OfCircle radius => truthy radius | _ => false end
     | None => false
     end.

Definition isPathArc (item : option (IPath num)) : bool :=
  isPath item
  && match item with
     | Some p =>
         match geometry p with
         | OfArc radius startAngle endAngle =>
             truthy radius && truthy startAngle && truthy endAngle
         | _ => false
         end
     | None => false
     end.

End Tests.

Section Objects.
Context {V : Type}.

(** A JS object is a finite map from property names to values; a property
    may hold [undefined] ([None]). *)

(** One round of the loop [for (var key in other)]. *)
Definition extendObject_step (key : string) (value : option V)
    (target : gmap string (option V)) : gmap string (option V) :=
  match value with
  | Some v => <[key := Some v]> target
  | None => target
  end.

(** [target] after the call (which is also what the call returns); [None]
    is a null or missing argument. *)
Definition extendObject (target other : option (gmap string (option V)))
  : option (gmap string (option V)) :=
  match target, other with
  | Some t, Some o => Some (map_fold extendObject_step t o)
  | _, _ => target
  end.

End Objects.
End MakerJs.

(** ** IEEE doubles: the numbers of the JS runtime *)

Module Ieee.

Definition of_Z (z : Z) : float :=
  match z with
  | Z0 => PrimFloat.zero
  | Zpos _ => PrimFloat.of_uint63 (Uint63.of_Z z)
  | Zneg p => PrimFloat.opp (PrimFloat.of_uint63 (Uint63.of_Z (Zpos p)))
  end.

#[global] Instance number : JsNumber float := {
  nadd := PrimFloat.add;
  nsub := PrimFloat.sub;
  nmul := PrimFloat.mul;
  neqb := PrimFloat.eqb;
  nlit := of_Z;
  truthy x := negb (PrimFloat.eqb x PrimFloat.zero) && PrimFloat.eqb x x
}.

End Ieee.

(** ** Exact arithmetic: canonical rationals *)

Module Exact.

Definition of_Z (z : Z) : Qc := Q2Qc (inject_Z z).

Definition eqb (a b : Qc) : bool := Qeq_bool a b.
Definition leb (a b : Qc) : bool := Qle_bool a b.
Definition ltb (a b : Qc) : bool := negb (Qle_bool b a).

#[global] Instance number : JsNumber Qc := {
  nadd := Qcplus;
  nsub := Qcminus;
  nmul := Qcmult;
  neqb := eqb;
  nlit := of_Z;
  truthy x := negb (eqb x (of_Z 0))
}.

Definition abs (a : Qc) : Qc := if ltb a (of_Z 0) then Qcopp a else a.
Definition min (a b : Qc) : Qc := if leb a b then a else b.
Definition max (a b : Qc) : Qc := if leb a b then b else a.
Definition floor (a : Qc) : Qc := of_Z (Qfloor a).

(** Modelled from the spec: the default tolerance of point comparison,
    about 1e-7. *)
Definition pointTolerance : Qc := Q2Qc (1 # 10000000).

(** Modelled from the spec: angles are compared under a fixed tolerance,
    whose value the spec does not give; the point tolerance is used. *)
Definition angleTolerance : Qc := pointTolerance.

End Exact.

(** ** The point, angle and measure operations, from their description *)

Module Model.
Section Generic.
Context {num : Type} `{JsNumber num}.
Local Open Scope js_scope.

(** Modelled from the spec: [point.add(a, b, subtract)] is not in the
    sources; it adds, or with [subtract] subtracts, coordinate by
    coordinate. *)
Definition point_add (a b : IPoint num) (subtract : bool) : IPoint num :=
  if subtract then (fst a - fst b, snd a - snd b) else (fst a + fst b, snd a + snd b).

(** Modelled from the spec: [point.scale(p, factor)] is not in the sources;
    it multiplies both coordinates by the factor. *)
Definition point_scale (p : IPoint num) (scaleValue : num) : IPoint num :=
  (fst p * scaleValue, snd p * scaleValue).

End Generic.

Local Open Scope Qc_scope.

(** Modelled from the spec: [point.mirror(p, mirrorX, mirrorY)] is not in
    the sources; it negates the x and/or the y coordinate. *)
Definition point_mirror (p : IPoint Qc) (mirrorX mirrorY : bool) : IPoint Qc :=
  (if mirrorX then - fst p else fst p, if mirrorY then - snd p else snd p).

(** Modelled from the spec: [point.areEqual(p1, p2, tolerance?)] is not in
    the sources; the points are equal when they differ by no more than the
    tolerance on each axis, the default tolerance being about 1e-7. *)
Definition point_areEqual (p1 p2 : IPoint Qc) (withinDistance : option Qc) : bool :=
  let tolerance := default Exact.pointTolerance withinDistance in
  Exact.leb (Exact.abs (fst p1 - fst p2)) tolerance
  && Exact.leb (Exact.abs (snd p1 - snd p2)) tolerance.

(** Modelled from the spec: [angle.noRevolutions] is not in the sources;
    it maps an angle in degrees into [0,360). *)
Definition angle_noRevolutions (angleInDegrees : Qc) : Qc :=
  angleInDegrees - Exact.of_Z 360 * Exact.floor (angleInDegrees / Exact.of_Z 360).

(** Modelled from the spec: [angle.ofArcEnd] is not in the sources; it is
    the end angle plus the whole turns that make the sweep from the start
    angle positive, [endAngle + 360 k] for the smallest such [k]. *)
Definition angle_ofArcEnd (arc : IPath Qc) : Qc :=
  match geometry arc with
  | OfArc _ startAngle endAngle =>
      let k := Exact.floor ((startAngle - endAngle) / Exact.of_Z 360) + Exact.of_Z 1 in
      endAngle + Exact.of_Z 360 * k
  | _ => Exact.of_Z 0
  end.

(** Modelled from the spec: [angle.mirror] is not in the sources; it
    reflects an angle the way [point.mirror] reflects the point at that
    angle: negating x sends an angle to 180 minus it, negating y to 360
    minus it. *)
Definition angle_mirror (angleInDegrees : Qc) (mirrorX mirrorY : bool) : Qc :=
  let a := if mirrorY then Exact.of_Z 360 - angleInDegrees else angleInDegrees in
  if mirrorX then Exact.of_Z 180 - a else a.

(** Modelled from the spec: [angle.areEqual] and [measure.isAngleEqual] are
    not in the sources; two angles are equal when they differ by no more
    than the angle tolerance. *)
Definition angle_areEqual (a1 a2 : Qc) : bool :=
  Exact.leb (Exact.abs (a1 - a2)) Exact.angleTolerance.

(** Modelled from the spec: [measure.isBetween(value, limit1, limit2,
    exclusive)] is not in the sources; with [exclusive] the value lies
    strictly between the limits, without it the limits count. *)
Definition measure_isBetween (valueInQuestion limit1 limit2 : Qc) (exclusive : bool) : bool :=
  if exclusive
  then Exact.ltb (Exact.min limit1 limit2) valueInQuestion
       && Exact.ltb valueInQuestion (Exact.max limit1 limit2)
  else Exact.leb (Exact.min limit1 limit2) valueInQuestion
       && Exact.leb valueInQuestion (Exact.max limit1 limit2).

(** Modelled from the spec: [measure.isBetweenPoints(point, line, flag)] is
    not in the sources; the point lies on the segment, end points
    included, within the tolerance: it is on the line through the end
    points and inside their bounding box.  The spec does not say what the
    flag does and the model does not read it. *)
Definition measure_isBetweenPoints (p : IPoint Qc) (line : IPath Qc) (flag : bool) : bool :=
  match geometry line with
  | OfLine end_ =>
      let o := origin line in
      let tol := Exact.pointTolerance in
      let cross := (fst end_ - fst o) * (snd p - snd o) - (snd end_ - snd o) * (fst p - fst o) in
      Exact.leb (Exact.abs cross) tol
      && Exact.leb (Exact.min (fst o) (fst end_) - tol) (fst p)
      && Exact.leb (fst p) (Exact.max (fst o) (fst end_) + tol)
      && Exact.leb (Exact.min (snd o) (snd end_) - tol) (snd p)
      && Exact.leb (snd p) (Exact.max (snd o) (snd end_) + tol)
  | _ => false
  end.

(** Modelled from the spec: [angle.ofPointInDegrees(origin, point)] is the
    polar angle of the point seen from the origin.  Exact arithmetic has
    that angle along the axes only: the model gives 0, 90, 180 and 270
    there, and is not meant for other directions (where it gives 0). *)
Definition angle_ofPointInDegrees (o p : IPoint Qc) : Qc :=
  let dx := fst p - fst o in
  let dy := snd p - snd o in
  if Exact.eqb dy (Exact.of_Z 0) then (if Exact.ltb dx (Exact.of_Z 0) then Exact.of_Z 180 else Exact.of_Z 0)
  else if Exact.eqb dx (Exact.of_Z 0) then (if Exact.ltb dy (Exact.of_Z 0) then Exact.of_Z 270 else Exact.of_Z 90)
  else Exact.of_Z 0.

(** Modelled from the spec: [point.rotate(p, degrees, center)] is the
    standard rotation about a center.  Exact arithmetic has it for quarter
    turns only: the model turns by 90, 180 and 270 degrees (modulo whole
    turns) and is not meant for other angles (where it returns the
    point). *)
Definition point_rotate (p : IPoint Qc) (angleInDegrees : Qc) (rotationOrigin : IPoint Qc)
  : IPoint Qc :=
  let dx := fst p - fst rotationOrigin in
  let dy := snd p - snd rotationOrigin in
  let a := angle_noRevolutions angleInDegrees in
  if Exact.eqb a (Exact.of_Z 90) then (fst rotationOrigin - dy, snd rotationOrigin + dx)
  else if Exact.eqb a (Exact.of_Z 180) then (fst rotationOrigin - dx, snd rotationOrigin - dy)
  else if Exact.eqb a (Exact.of_Z 270) then (fst rotationOrigin + dy, snd rotationOrigin - dx)
  else p.

(** Modelled from the spec: [point.subtract(a, b)] is not in the sources;
    it subtracts coordinate by coordinate. *)
Definition point_subtract (a b : IPoint Qc) : IPoint Qc :=
  (fst a - fst b, snd a - snd b).

(** Modelled from the spec: [point.clone(p)] is not in the sources; it is
    a new point with the coordinates of [p]. *)
Definition point_clone (p : IPoint Qc) : IPoint Qc := (fst p, snd p).

(** Modelled from the spec: a step of the curve subdivision that
    [bezier.breakAt] stands for, which is not in the sources: the point at
    parameter [t] between two points. *)
Definition lerp (t : Qc) (a b : IPoint Qc) : IPoint Qc :=
  (fst a + t * (fst b - fst a), snd a + t * (snd b - snd a)).

(** Modelled from the spec: the interpolation between each point and the
    next, for the same subdivision. *)
Fixpoint lerps (t : Qc) (ps : list (IPoint Qc)) : list (IPoint Qc) :=
  match ps with
  | a :: (b :: _) as rest => lerp t a b :: lerps t rest
  | _ => []
  end.

(** Modelled from the spec: the two control polygons of a curve cut at
    [t], for the same subdivision: the first points of the successive
    interpolations, and their last points in reverse. *)
Fixpoint subdivide (fuel : nat) (t : Qc) (ps : list (IPoint Qc))
  : list (IPoint Qc) * list (IPoint Qc) :=
  match fuel, ps with
  | S fuel', p0 :: _ =>
      let '(front, back) := subdivide fuel' t (lerps t ps) in
      (p0 :: front, back ++ [List.last ps p0])
  | _, _ => ([], [])
  end.

(** Modelled from the spec: [bezier.breakAt(bez, t)] is not in the
    sources; it is the curve subdivision at parameter [t], which leaves
    the front part in the curve and returns the tail, with the arity of
    the control points kept.  The spec does not say what happens without a
    parameter; the model then leaves the curve alone and returns null. *)
Definition bezier_breakAt (bez : IPath Qc) (t : option Qc) : IPath Qc * option (IPath Qc) :=
  match geometry bez, t with
  | OfBezier e c cs, Some t =>
      let ps := origin bez :: (match c with Some c => [c] | None => cs end) ++ [e] in
      let '(front, back) := subdivide (length ps) t ps in
      match paths.Bezier front, paths.Bezier back with
      | Some f, Some b => (set_layer (layer bez) f, Some b)
      | _, _ => (bez, None)
      end
  | _, _ => (bez, None)
  end.

#[global] Instance ieee_point_add : point.Add float := point_add.
#[global] Instance exact_point_add : point.Add Qc := point_add.
#[global] Instance exact_point_mirror : point.Mirror Qc := point_mirror.
#[global] Instance exact_point_areEqual : point.AreEqual Qc := point_areEqual.
#[global] Instance exact_noRevolutions : angle.NoRevolutions Qc := angle_noRevolutions.
#[global] Instance exact_ofArcEnd : angle.OfArcEnd Qc := angle_ofArcEnd.
#[global] Instance exact_ofPointInDegrees : angle.OfPointInDegrees Qc := angle_ofPointInDegrees.
#[global] Instance exact_angle_mirror : angle.Mirror Qc := angle_mirror.
#[global] Instance exact_angle_areEqual : angle.AreEqual Qc := angle_areEqual.
#[global] Instance exact_isAngleEqual : measure.IsAngleEqual Qc := angle_areEqual.
#[global] Instance exact_isBetween : measure.IsBetween Qc := measure_isBetween.
#[global] Instance exact_isBetweenPoints : measure.IsBetweenPoints Qc := measure_isBetweenPoints.
#[global] Instance exact_point_rotate : point.Rotate Qc := point_rotate.
#[global] Instance exact_breakAt : bezier.BreakAt Qc := bezier_breakAt.
#[global] Instance exact_point_subtract : point.Subtract Qc := point_subtract.
#[global] Instance exact_point_scale : point.Scale Qc := point_scale.
#[global] Instance ieee_point_scale : point.Scale float := point_scale.
#[global] Instance exact_point_clone : point.Clone Qc := point_clone.

End Model.

(** ** Worked inputs *)

Module Scenario.

Definition q (z : Z) : Qc := Exact.of_Z z.

Definition arc_350_10 : IPath Qc :=
  {| origin := (q 0, q 0); layer := None; geometry := OfArc (q 5) (q 350) (q 10) |}.

Definition arc_0_90 : IPath Qc :=
  {| origin := (q 0, q 0); layer := None; geometry := OfArc (q 5) (q 0) (q 90) |}.

Definition circle_3 : IPath Qc :=
  {| origin := (q 0, q 0); layer := None; geometry := OfCircle (q 3) |}.

Definition line_0_10 : IPath Qc :=
  {| origin := (q 0, q 0); layer := None; geometry := OfLine (q 10, q 0) |}.

(** A quadratic curve, on a layer. *)
Definition bezier_0_10 : IPath Qc :=
  {| origin := (q 0, q 0); layer := Some "cut"%string;
     geometry := OfBezier (q 10, q 0) (Some (q 5, q 10)) [] |}.

(** A line and a circle in a heap, the line listed once and the circle
    twice. *)
Definition store_twice : path.Store (num := Qc) :=
  {| path.heap := [line_0_10; circle_3];
     path.pathsToMove := [0%nat; 1%nat; 1%nat];
     path.deltas := [Some (q 1, q 2); Some (q 1, q 1); Some (q 2, q 2)] |}.

(** In IEEE doubles: a line from [1, 0] to [3, 4] to be moved by [2, 5],
    and a circle with no delta. *)
Definition store_ieee_exact : path.Store (num := float) :=
  {| path.heap := [paths.Line (nlit 1, nlit 0) (nlit 3, nlit 4);
                   paths.Circle (nlit 0, nlit 0) (nlit 3)];
     path.pathsToMove := [0%nat; 1%nat];
     path.deltas := [Some (nlit 2, nlit 5); None] |}.

(** In IEEE doubles: a line at [1, 0] of length zero, listed twice, to be
    moved by [1, 0] and by [2^53 - 1, 0]. *)
Definition line_ieee_1 : IPath float := paths.Line (nlit 1, nlit 0) (nlit 1, nlit 0).

Definition store_ieee_twice : path.Store (num := float) :=
  {| path.heap := [line_ieee_1];
     path.pathsToMove := [0%nat; 0%nat];
     path.deltas := [Some (nlit 1, nlit 0); Some (nlit 9007199254740991, nlit 0)] |}.

(** In IEEE doubles: the circle of radius 3 about [1, 2]. *)
Definition circle_ieee_3 : IPath float := paths.Circle (nlit 1, nlit 2) (nlit 3).

(** A line at [1, 0] of length zero, to be moved by [2^53, 0], in IEEE
    doubles. *)
Definition store_ieee : path.Store (num := float) :=
  {| path.heap := [paths.Line (nlit 1, nlit 0) (nlit 1, nlit 0)];
     path.pathsToMove := [0%nat];
     path.deltas := [Some (nlit 9007199254740992, nlit 0)] |}.

End Scenario.

(** * Properties *)

(** ** The loop with early return *)

Section ForReturn.
Context {A B : Type}.

Lemma forReturn_none (body : A -> option B) (arr : list A) :
  (forall x, In x arr -> body x = None) -> forReturn body arr = None.
Proof.
  induction arr as [|x rest IH]; intros Hall; simpl.
  - reflexivity.
  - rewrite (Hall x) by (left; reflexivity).
    apply IH. intros y Hy. apply Hall. right. exact Hy.
Qed.

Lemma forReturn_first (body : A -> option B) (pre : list A) (x : A) (post : list A) (r : B) :
  (forall y, In y pre -> body y = None) -> body x = Some r ->
  forReturn body (pre ++ x :: post) = Some r.
Proof.
  induction pre as [|y pre IH]; intros Hpre Hx; simpl.
  - rewrite Hx. reflexivity.
  - rewrite (Hpre y) by (left; reflexivity).
    apply IH; [|exact Hx]. intros z Hz. apply Hpre. right. exact Hz.
Qed.

End ForReturn.

(** ** Breaking a path *)

Section Break.
Context {num : Type} `{JsNumber num}.
Context `{angle.NoRevolutions num, angle.OfArcEnd num, angle.OfPointInDegrees num}.
Context `{measure.IsAngleEqual num, measure.IsBetween num, measure.IsBetweenPoints num}.
Context `{bezier.BreakAt num}.

Local Open Scope js_scope.

(** The arc entry, when the break angle is at neither end of the arc and
    the search finds no offset. *)
Lemma breakPathFunctionMap_Arc_none (arc : IPath num) (radius startAngle endAngle : num)
    (pointOfBreak : IPoint num) (angleOfBreak tOfBreak : option num) :
  let a := orElse angleOfBreak (angle.ofPointInDegrees (origin arc) pointOfBreak) in
  measure.isAngleEqual a startAngle = false ->
  measure.isAngleEqual a endAngle = false ->
  path.getAngleStrictlyBetweenArcAngles arc startAngle a = None ->
  path.breakPathFunctionMap_Arc arc radius startAngle endAngle pointOfBreak angleOfBreak tOfBreak
  = (arc, None).
Proof.
  intros a Hs He Hnone. unfold path.breakPathFunctionMap_Arc.
  fold a. rewrite Hs, He, Hnone. reflexivity.
Qed.

Lemma breakPathFunctionMap_Arc_some (arc : IPath num) (radius startAngle endAngle : num)
    (pointOfBreak : IPoint num) (angleOfBreak tOfBreak : option num) (between : num) :
  let a := orElse angleOfBreak (angle.ofPointInDegrees (origin arc) pointOfBreak) in
  measure.isAngleEqual a startAngle = false ->
  measure.isAngleEqual a endAngle = false ->
  path.getAngleStrictlyBetweenArcAngles arc startAngle a = Some between ->
  path.breakPathFunctionMap_Arc arc radius startAngle endAngle pointOfBreak angleOfBreak tOfBreak
  = (set_geometry (OfArc radius startAngle between) arc,
     Some (paths.Arc (origin arc) radius between endAngle)).
Proof.
  intros a Hs He Hsome. unfold path.breakPathFunctionMap_Arc.
  fold a. rewrite Hs, He, Hsome. reflexivity.
Qed.

(** What [breakAtPoint] adds to an entry's result: the layer. *)
Lemma breakAtPoint_dispatch (p : IPath num) (pt : IPoint num) (angleOfBreak tOfBreak : option num)
    (p' : IPath num) (result : option (IPath num)) :
  path.breakPathFunctionMap p pt angleOfBreak tOfBreak = (p', result) ->
  path.breakAtPoint (Some p) (Some pt) angleOfBreak tOfBreak
  = (Some p', match result, layer p' with
              | Some r, Some l => Some (set_layer (Some l) r)
              | _, _ => result
              end).
Proof.
  intros Hmap. unfold path.breakAtPoint. rewrite Hmap.
  destruct result as [r|]; [destruct (layer p')|]; reflexivity.
Qed.

(** A path built without a layer, once [breakAtPoint] has copied the
    source's layer to it, carries exactly the source's layer. *)
Lemma copied_layer (o : IPoint num) (g : Geometry num) (l : option string) :
  match l with
  | Some l' => Some (set_layer (Some l') {| origin := o; layer := None; geometry := g |})
  | None => Some {| origin := o; layer := None; geometry := g |}
  end = Some {| origin := o; layer := l; geometry := g |}.
Proof. destruct l; reflexivity. Qed.

(** C1 (as amended): for an arc whose break angle is at neither of its
    ends, [breakAtPoint] takes the start angle normalized by
    [angle.noRevolutions], the end [start + ofArcEnd(arc) - startAngle], and
    tries the offsets 0, +360, -360 in that order until the offset break
    angle lies strictly between the two.  If none does it returns null and
    leaves the arc as it is.  At the first offset that does, the resolved
    angle is [startAngle + breakAngle + offset - start]: it becomes the
    source's [endAngle], and the returned arc has the source's origin,
    radius and layer, starts at the resolved angle and ends at the source's
    former [endAngle]. *)
Theorem breakAtPoint_arc_resolution
    (arc : IPath num) (radius startAngle endAngle : num)
    (pointOfBreak : IPoint num) (angleOfBreak tOfBreak : option num) :
  geometry arc = OfArc radius startAngle endAngle ->
  let angleAtBreakPoint :=
    orElse angleOfBreak (angle.ofPointInDegrees (origin arc) pointOfBreak) in
  let start := angle.noRevolutions startAngle in
  let end_ := start + angle.ofArcEnd arc - startAngle in
  let inside t := measure.isBetween (angleAtBreakPoint + nlit 360 * t) start end_ true in
  measure.isAngleEqual angleAtBreakPoint startAngle = false ->
  measure.isAngleEqual angleAtBreakPoint endAngle = false ->
  ((forall t, In t [nlit 0; nlit 1; nlit (-1)] -> inside t = false) ->
   path.breakAtPoint (Some arc) (Some pointOfBreak) angleOfBreak tOfBreak = (Some arc, None))
  /\
  (forall pre t post,
     [nlit 0; nlit 1; nlit (-1)] = pre ++ t :: post ->
     (forall u, In u pre -> inside u = false) ->
     inside t = true ->
     let resolved := startAngle + angleAtBreakPoint + nlit 360 * t - start in
     path.breakAtPoint (Some arc) (Some pointOfBreak) angleOfBreak tOfBreak
     = (Some (set_geometry (OfArc radius startAngle resolved) arc),
        Some {| origin := origin arc; layer := layer arc;
                geometry := OfArc radius resolved endAngle |})).
Proof.
  intros Hgeo a start end_ inside Hs He. split.
  - intros Hnone.
    rewrite breakAtPoint_dispatch with (p' := arc) (result := None); [reflexivity|].
    unfold path.breakPathFunctionMap. rewrite Hgeo.
    apply breakPathFunctionMap_Arc_none; try assumption.
    unfold path.getAngleStrictlyBetweenArcAngles.
    apply forReturn_none. intros t Ht. fold a start end_.
    specialize (Hnone t Ht). unfold inside in Hnone. rewrite Hnone. reflexivity.
  - intros pre t post Htries Hpre Ht resolved.
    rewrite breakAtPoint_dispatch
      with (p' := set_geometry (OfArc radius startAngle resolved) arc)
           (result := Some (paths.Arc (origin arc) radius resolved endAngle)).
    + simpl. f_equal. unfold paths.Arc. apply copied_layer.
    + unfold path.breakPathFunctionMap. rewrite Hgeo.
      apply breakPathFunctionMap_Arc_some; try assumption.
      unfold path.getAngleStrictlyBetweenArcAngles. rewrite Htries.
      apply forReturn_first.
      * intros u Hu. fold a start end_. specialize (Hpre u Hu).
        unfold inside in Hpre. rewrite Hpre. reflexivity.
      * fold a start end_. unfold inside in Ht. rewrite Ht. reflexivity.
Qed.


(** C2: breaking a circle turns the source, in place, into an arc: its
    type tag becomes Arc, it starts at the polar angle of the break point
    seen from the circle's origin and ends 360 degrees later; origin,
    radius and layer stay, and the call returns null. *)
Theorem breakAtPoint_circle (circle : IPath num) (radius : num)
    (pointOfBreak : IPoint num) (angleOfBreak tOfBreak : option num) :
  geometry circle = OfCircle radius ->
  let angleAtBreakPoint := angle.ofPointInDegrees (origin circle) pointOfBreak in
  let broken := {| origin := origin circle; layer := layer circle;
                   geometry := OfArc radius angleAtBreakPoint (angleAtBreakPoint + nlit 360) |} in
  type broken = pathType.Arc /\
  path.breakAtPoint (Some circle) (Some pointOfBreak) angleOfBreak tOfBreak = (Some broken, None).
Proof.
  intros Hgeo a broken. split; [reflexivity|].
  rewrite breakAtPoint_dispatch with (p' := broken) (result := None); [reflexivity|].
  unfold path.breakPathFunctionMap. rewrite Hgeo. reflexivity.
Qed.

(** X25: breaking a line returns null and leaves the line as it is unless
    [measure.isBetweenPoints(pointOfBreak, line, true)] holds; when it
    holds, the source's end becomes the break point and the call returns a
    new line from the break point to the source's former end, with the
    source's layer. *)
Theorem breakAtPoint_line (line : IPath num) (end_ : IPoint num)
    (pointOfBreak : IPoint num) (angleOfBreak tOfBreak : option num) :
  geometry line = OfLine end_ ->
  (measure.isBetweenPoints pointOfBreak line true = false ->
   path.breakAtPoint (Some line) (Some pointOfBreak) angleOfBreak tOfBreak = (Some line, None))
  /\
  (measure.isBetweenPoints pointOfBreak line true = true ->
   path.breakAtPoint (Some line) (Some pointOfBreak) angleOfBreak tOfBreak
   = (Some (set_geometry (OfLine pointOfBreak) line),
      Some {| origin := pointOfBreak; layer := layer line; geometry := OfLine end_ |})).
Proof.
  intros Hgeo. split; intros Hbetween.
  - rewrite breakAtPoint_dispatch with (p' := line) (result := None); [reflexivity|].
    unfold path.breakPathFunctionMap, path.breakPathFunctionMap_Line.
    rewrite Hgeo, Hbetween. reflexivity.
  - rewrite breakAtPoint_dispatch
      with (p' := set_geometry (OfLine pointOfBreak) line)
           (result := Some (paths.Line pointOfBreak end_)).
    + simpl. f_equal. unfold paths.Line. apply copied_layer.
    + unfold path.breakPathFunctionMap, path.breakPathFunctionMap_Line.
      rewrite Hgeo, Hbetween. reflexivity.
Qed.

(** C4: when the break angle equals the arc's [startAngle] or its
    [endAngle] (as [measure.isAngleEqual] judges), [breakAtPoint] returns
    null and the arc is as it was. *)
Theorem breakAtPoint_arc_at_end (arc : IPath num) (radius startAngle endAngle : num)
    (pointOfBreak : IPoint num) (angleOfBreak tOfBreak : option num) :
  geometry arc = OfArc radius startAngle endAngle ->
  let angleAtBreakPoint :=
    orElse angleOfBreak (angle.ofPointInDegrees (origin arc) pointOfBreak) in
  measure.isAngleEqual angleAtBreakPoint startAngle = true
  \/ measure.isAngleEqual angleAtBreakPoint endAngle = true ->
  path.breakAtPoint (Some arc) (Some pointOfBreak) angleOfBreak tOfBreak = (Some arc, None).
Proof.
  intros Hgeo a Hends.
  rewrite breakAtPoint_dispatch with (p' := arc) (result := None); [reflexivity|].
  unfold path.breakPathFunctionMap, path.breakPathFunctionMap_Arc.
  rewrite Hgeo. fold a.
  destruct Hends as [Hs|He].
  - rewrite Hs. reflexivity.
  - rewrite He, orb_true_r. reflexivity.
Qed.

(** C8: without a point of break, [breakAtPoint] returns null for a Bezier
    curve and leaves it alone, whatever the parameter [tOfBreak]; with a
    point, the outcome does not depend on which point (or angle) it is:
    only its presence is tested before [bezier.breakAt] is called. *)
Theorem breakAtPoint_bezier_needs_point (bez : IPath num) (end_ : IPoint num)
    (control : option (IPoint num)) (controls : list (IPoint num))
    (angleOfBreak tOfBreak : option num) :
  geometry bez = OfBezier end_ control controls ->
  path.breakAtPoint (Some bez) None angleOfBreak tOfBreak = (Some bez, None)
  /\
  (forall (pt1 pt2 : IPoint num) (angle1 angle2 : option num),
     path.breakAtPoint (Some bez) (Some pt1) angle1 tOfBreak
     = path.breakAtPoint (Some bez) (Some pt2) angle2 tOfBreak).
Proof.
  intros Hgeo. split; [reflexivity|].
  intros pt1 pt2 angle1 angle2.
  unfold path.breakAtPoint, path.breakPathFunctionMap. rewrite Hgeo. reflexivity.
Qed.

(** C9: when breaking an arc yields a second piece, the source keeps its
    origin, its radius and its [startAngle] (and its layer and type): of
    its fields only [endAngle] is assigned. *)
Theorem breakAtPoint_arc_frame (arc : IPath num) (radius startAngle endAngle : num)
    (pointOfBreak : option (IPoint num)) (angleOfBreak tOfBreak : option num)
    (arc' piece : IPath num) :
  geometry arc = OfArc radius startAngle endAngle ->
  path.breakAtPoint (Some arc) pointOfBreak angleOfBreak tOfBreak = (Some arc', Some piece) ->
  origin arc' = origin arc /\ layer arc' = layer arc /\
  exists endAngle', geometry arc' = OfArc radius startAngle endAngle'.
Proof.
  intros Hgeo Hbreak.
  destruct pointOfBreak as [pt|]; [|discriminate Hbreak].
  unfold path.breakAtPoint, path.breakPathFunctionMap in Hbreak.
  rewrite Hgeo in Hbreak. unfold path.breakPathFunctionMap_Arc in Hbreak.
  destruct (measure.isAngleEqual _ startAngle || measure.isAngleEqual _ endAngle);
    [discriminate Hbreak|].
  destruct (path.getAngleStrictlyBetweenArcAngles arc startAngle _) as [between|];
    [|discriminate Hbreak].
  simpl in Hbreak.
  assert (arc' = set_geometry (OfArc radius startAngle between) arc) as ->.
  { destruct (layer arc); congruence. }
  simpl. eauto.
Qed.

End Break.

(** ** Equality of paths *)

Section Equality.
Context {num : Type} `{JsNumber num}.
Context `{point.AreEqual num, angle.AreEqual num}.

Lemma areEqual_same_type (path1 path2 : IPath num) (withinPointDistance : option num) :
  type path1 = type path2 ->
  path.areEqual path1 path2 withinPointDistance
  = path.pathAreEqualMap path1 path2 withinPointDistance.
Proof.
  intros Hsame. unfold path.areEqual.
  destruct (decide (type path1 = type path2)) as [_|Hdiffer]; [reflexivity|].
  contradiction.
Qed.

(** C10: [areEqual] on two Bezier curves returns null, the value of the
    entry of [pathAreEqualMap] for curves; and whatever the second path is,
    the answer for a Bezier curve is never true. *)
Theorem areEqual_bezier_never_true (bezier1 path2 : IPath num)
    (withinPointDistance : option num) :
  type bezier1 = pathType.Bezier ->
  (type path2 = pathType.Bezier ->
   path.areEqual bezier1 path2 withinPointDistance = None)
  /\ path.areEqual bezier1 path2 withinPointDistance <> Some true.
Proof.
  intros Hcurve. unfold path.areEqual, path.pathAreEqualMap, type in *.
  destruct (geometry bezier1); try discriminate Hcurve.
  destruct (geometry path2); simpl; split; intros; congruence.
Qed.

End Equality.

(** ** Mirroring twice *)

Section Mirror.
Context {num : Type} `{JsNumber num}.
Context `{point.Mirror num, point.AreEqual num}.
Context `{angle.OfArcEnd num, angle.Mirror num, angle.AreEqual num}.

Local Open Scope js_scope.

(** [new paths.Bezier(points)] on an origin, the points between and an
    end. *)
Lemma paths_Bezier_points (o : IPoint num) (mid : list (IPoint num)) (e : IPoint num) :
  paths.Bezier (o :: mid ++ [e])
  = Some {| origin := o; layer := None;
            geometry := match mid with
                        | [c] => OfBezier e (Some c) []
                        | cs => OfBezier e None cs
                        end |}.
Proof.
  unfold paths.Bezier. rewrite List.rev_app_distr. simpl.
  rewrite List.rev_involutive. destruct mid as [|c [|c' rest]]; reflexivity.
Qed.

(** The mirror image of a curve is a curve. *)
Lemma mirror_bezier (bez : IPath num) (end_ : IPoint num) (control : option (IPoint num))
    (controls : list (IPoint num)) (mirrorX mirrorY : bool) :
  geometry bez = OfBezier end_ control controls ->
  exists image, path.mirror (Some bez) mirrorX mirrorY = Some image
                /\ type image = pathType.Bezier /\ layer image = layer bez.
Proof.
  intros Hgeo. unfold path.mirror, path.mirrorMap, path.mirrorMap_Bezier.
  rewrite Hgeo. cbn [app List.map]. rewrite List.map_app. cbn [app List.map].
  rewrite paths_Bezier_points.
  set (mid := List.map _ _).
  assert (exists g, (match mid with
                     | [c] => OfBezier (point.mirror end_ mirrorX mirrorY) (Some c) []
                     | cs => OfBezier (point.mirror end_ mirrorX mirrorY) None cs
                     end) = g
                    /\ match g with OfBezier _ _ _ => True | _ => False end) as (g & -> & Hg).
  { destruct mid as [|c [|c' rest]]; eexists; split; try reflexivity; exact I. }
  destruct g; try contradiction.
  unfold path.copyLayer.
  destruct (layer bez); eexists; repeat split; reflexivity.
Qed.


End Mirror.

(** ** Rotation *)

Section Rotate.
Context {num : Type} `{JsNumber num}.
Context `{point.Rotate num, angle.NoRevolutions num}.

Local Open Scope js_scope.

(** C6: rotating an arc by an amount that is not [== 0] rotates its origin
    about the rotation origin and replaces each of its two angles by
    [angle.noRevolutions] of that angle plus the amount, one angle at a
    time; radius and layer stay. *)
Theorem rotate_arc (arc : IPath num) (radius startAngle endAngle : num)
    (angleInDegrees : num) (rotationOrigin : IPoint num) :
  geometry arc = OfArc radius startAngle endAngle ->
  (angleInDegrees == nlit 0) = false ->
  path.rotate (Some arc) angleInDegrees rotationOrigin
  = Some {| origin := point.rotate (origin arc) angleInDegrees rotationOrigin;
            layer := layer arc;
            geometry := OfArc radius
                          (angle.noRevolutions (startAngle + angleInDegrees))
                          (angle.noRevolutions (endAngle + angleInDegrees)) |}.
Proof.
  intros Hgeo Hnonzero. unfold path.rotate. rewrite Hnonzero.
  unfold path.rotateMap. cbn [geometry set_origin]. rewrite Hgeo. reflexivity.
Qed.

End Rotate.

(** ** Moving paths for the time of a task *)

Section MoveTemporary.
Context {num : Type} `{JsNumber num} `{point.Add num}.

(** What [moveRelative] makes of a path, given a delta. *)
Local Abbreviation moved d s :=
  (fun p : IPath num => default p (path.moveRelative (Some p) (Some d) s)).

Lemma moveRelative_moved (p : IPath num) (d : IPoint num) (subtract : bool) :
  path.moveRelative (Some p) (Some d) subtract = Some (moved d subtract p).
Proof.
  unfold path.moveRelative.
  destruct (path.moveRelativeMap _ d subtract); reflexivity.
Qed.

(** The inner [move] of [moveTemporary] alters one cell of the heap. *)
Lemma moveTemporary_move_alter (subtract : bool) (deltas : list (option (IPoint num)))
    (h : list (IPath num)) (pathToOffset i : nat) :
  path.moveTemporary_move subtract deltas h pathToOffset i
  = match deltas !! i with
    | Some (Some d) => alter (moved d subtract) pathToOffset h
    | _ => h
    end.
Proof.
  unfold path.moveTemporary_move.
  destruct (deltas !! i) as [[d|]|]; try reflexivity.
  destruct (h !! pathToOffset) as [p|] eqn:Hcell.
  - rewrite moveRelative_moved, list_insert_alter.
    apply list_alter_ext; [|reflexivity].
    intros x Hx. rewrite Hcell in Hx. injection Hx as <-. reflexivity.
  - cbn [path.moveRelative].
    transitivity (alter (fun x : IPath num => x) pathToOffset h).
    + symmetry. apply list_alter_id. reflexivity.
    + apply list_alter_ext; [|reflexivity].
      intros x Hx. rewrite Hcell in Hx. discriminate Hx.
Qed.

Section Laws.
(** Subtracting a delta undoes adding it. *)
Hypothesis add_subtract :
  forall p d : IPoint num, point.add (point.add p d false) d true = p.

Lemma moved_undo (d : IPoint num) (p : IPath num) :
  moved d true (moved d false p) = p.
Proof using add_subtract.
  destruct p as [o l g]. unfold path.moveRelative, path.moveRelativeMap.
  destruct g as [e|r|r s e|e [c|] cs]; cbn [default from_option id geometry origin layer set_origin set_geometry];
    rewrite ?add_subtract; try reflexivity.
  rewrite List.map_map.
  rewrite (List.map_ext _ (fun x => x)) by (intros x; apply add_subtract).
  rewrite List.map_id. reflexivity.
Qed.

End Laws.

(** Moving one path by a delta and back, where the subtraction undoes the
    addition on the points of that path. *)
Lemma moveRelative_undo_at (p : IPath num) (d : IPoint num) :
  (forall x, In x (path.pointsOf p) -> point.add (point.add x d false) d true = x) ->
  path.moveRelative (path.moveRelative (Some p) (Some d) false) (Some d) true = Some p.
Proof.
  intros Hexact. destruct p as [o l g].
  unfold path.pointsOf in Hexact. cbn [origin geometry] in Hexact.
  unfold path.moveRelative, path.moveRelativeMap.
  destruct g as [e|r|r s e|e [c|] cs]; cbn [geometry origin layer set_origin set_geometry].
  - rewrite !Hexact by (simpl; auto). reflexivity.
  - rewrite !Hexact by (simpl; auto). reflexivity.
  - rewrite !Hexact by (simpl; auto). reflexivity.
  - rewrite !Hexact by (simpl; auto). reflexivity.
  - rewrite (Hexact o), (Hexact e) by (simpl; auto).
    rewrite List.map_map.
    rewrite (List.map_ext_in _ (fun x => x))
      by (intros x Hx; apply Hexact; simpl; auto).
    rewrite List.map_id. reflexivity.
Qed.

(** One step of a pass, read at a cell. *)
Lemma moveTemporary_move_lookup (subtract : bool) (deltas : list (option (IPoint num)))
    (h : list (IPath num)) (r i r' : nat) :
  path.moveTemporary_move subtract deltas h r i !! r'
  = if decide (r = r')
    then match deltas !! i with
         | Some (Some d) => path.moveRelative (h !! r) (Some d) subtract
         | _ => h !! r
         end
    else h !! r'.
Proof.
  rewrite moveTemporary_move_alter.
  destruct (decide (r = r')) as [<-|Hdiffer].
  - destruct (deltas !! i) as [[d|]|]; try reflexivity.
    rewrite list_lookup_alter_eq.
    destruct (h !! r) as [p|]; cbn [fmap option_fmap option_map].
    + rewrite moveRelative_moved. reflexivity.
    + reflexivity.
  - destruct (deltas !! i) as [[d|]|]; try reflexivity.
    apply list_lookup_alter_ne. exact Hdiffer.
Qed.

Lemma moveTemporary_move_length (subtract : bool) (deltas : list (option (IPoint num)))
    (h : list (IPath num)) (r i : nat) :
  length (path.moveTemporary_move subtract deltas h r i) = length h.
Proof.
  rewrite moveTemporary_move_alter.
  destruct (deltas !! i) as [[d|]|]; try reflexivity. apply length_alter.
Qed.

Lemma mapMoveFrom_frame (subtract : bool) (deltas : list (option (IPoint num)))
    (arr : list nat) (r : nat) :
  ~ In r arr ->
  forall (i : nat) (h : list (IPath num)),
    path.mapMoveFrom subtract deltas i arr h !! r = h !! r.
Proof.
  induction arr as [|r0 rest IH]; intros Hout i h; cbn [path.mapMoveFrom].
  - reflexivity.
  - rewrite IH by (intros Hin; apply Hout; right; exact Hin).
    rewrite moveTemporary_move_lookup.
    destruct (decide (r0 = r)) as [->|_]; [|reflexivity].
    contradiction Hout. left. reflexivity.
Qed.

Lemma mapMoveFrom_length (subtract : bool) (deltas : list (option (IPoint num)))
    (arr : list nat) :
  forall (i : nat) (h : list (IPath num)),
    length (path.mapMoveFrom subtract deltas i arr h) = length h.
Proof.
  induction arr as [|r0 rest IH]; intros i h; cbn [path.mapMoveFrom].
  - reflexivity.
  - rewrite IH. apply moveTemporary_move_length.
Qed.

(** A pass, read at a path that the array lists at index [k] and nowhere
    else. *)
Lemma mapMoveFrom_entry (subtract : bool) (deltas : list (option (IPoint num)))
    (arr : list nat) (r : nat) :
  forall (k i : nat) (h : list (IPath num)),
    arr !! k = Some r ->
    (forall j, arr !! j = Some r -> j = k) ->
    path.mapMoveFrom subtract deltas i arr h !! r
    = match deltas !! (i + k)%nat with
      | Some (Some d) => path.moveRelative (h !! r) (Some d) subtract
      | _ => h !! r
      end.
Proof.
  induction arr as [|r0 rest IH]; intros k i h Hk Honce.
  - discriminate Hk.
  - cbn [path.mapMoveFrom]. destruct k as [|k].
    + injection Hk as ->.
      rewrite mapMoveFrom_frame.
      * rewrite moveTemporary_move_lookup, Nat.add_0_r.
        destruct (decide (r = r)) as [_|Hne]; [reflexivity|contradiction].
      * intros Hin. apply list_elem_of_In in Hin.
        apply list_elem_of_lookup in Hin. destruct Hin as [j Hj].
        specialize (Honce (S j) Hj). discriminate Honce.
    + cbn in Hk.
      assert (r0 <> r) as Hdiffer.
      { intros ->. specialize (Honce 0%nat eq_refl). discriminate Honce. }
      rewrite (IH k (S i) _ Hk).
      * rewrite moveTemporary_move_lookup.
        destruct (decide (r0 = r)) as [Heq|_]; [contradiction|].
        replace (S i + k)%nat with (i + S k)%nat by lia. reflexivity.
      * intros j Hj. specialize (Honce (S j) Hj). injection Honce as ->. reflexivity.
Qed.

(** A forward pass followed by a backward pass, read at a cell. *)
Lemma passes_lookup (deltas : list (option (IPoint num))) (arr : list nat)
    (h : list (IPath num)) (r : nat) :
  NoDup arr ->
  (forall k p d x,
     arr !! k = Some r -> h !! r = Some p -> deltas !! k = Some (Some d) ->
     In x (path.pointsOf p) ->
     point.add (point.add x d false) d true = x) ->
  path.mapMoveFrom true deltas 0 arr (path.mapMoveFrom false deltas 0 arr h) !! r = h !! r.
Proof.
  intros Hnodup Hexact.
  destruct (decide (r ∈ arr)) as [Hin|Hout].
  - apply list_elem_of_lookup in Hin. destruct Hin as [k Hk].
    assert (forall j, arr !! j = Some r -> j = k) as Honce.
    { intros j Hj. exact (NoDup_lookup _ _ _ _ Hnodup Hj Hk). }
    rewrite (mapMoveFrom_entry true deltas arr 0%nat _ Hk Honce).
    rewrite (mapMoveFrom_entry false deltas arr 0%nat _ Hk Honce). cbn [Nat.add].
    destruct (deltas !! k) as [[d|]|] eqn:Hd; try reflexivity.
    destruct (h !! r) as [p|] eqn:Hp; [|reflexivity].
    apply moveRelative_undo_at. intros x Hx. exact (Hexact k p d x Hk eq_refl Hd Hx).
  - rewrite !mapMoveFrom_frame; try reflexivity;
      intros Hin; apply Hout; apply list_elem_of_In; exact Hin.
Qed.

(** C7 (as amended): [moveTemporary] applies [moveRelative] with each
    path's delta (paths whose delta is absent are skipped), runs the task,
    and applies [moveRelative] with [subtract] and the same deltas.
    Provided that every path is listed once, that the task leaves the
    paths, the array of paths and the deltas as they are, and that for
    each path and its delta subtracting the delta from a point of the path
    after adding it gives that very point, every path is afterwards what
    it was before the call.  The last proviso is about the numbers of this
    call only: it holds in IEEE doubles wherever these additions do not
    round. *)
Theorem moveTemporary_restores (task : path.Store -> path.Store) (st : path.Store) :
  NoDup (path.pathsToMove st) ->
  (forall k r p d x,
     path.pathsToMove st !! k = Some r ->
     path.heap st !! r = Some p ->
     path.deltas st !! k = Some (Some d) ->
     In x (path.pointsOf p) ->
     point.add (point.add x d false) d true = x) ->
  task (path.mapMove false st) = path.mapMove false st ->
  path.moveTemporary task st = st.
Proof.
  intros Hnodup Hexact Htask. unfold path.moveTemporary. rewrite Htask.
  destruct st as [h arr ds]. unfold path.mapMove.
  cbn [path.heap path.pathsToMove path.deltas] in *.
  f_equal. apply list_eq. intros r.
  apply passes_lookup; [exact Hnodup|].
  intros k p d x Hk Hp Hd Hx. exact (Hexact k r p d x Hk Hp Hd Hx).
Qed.

End MoveTemporary.

(** ** The exact instance *)

Section ExactLaws.
Local Open Scope Qc_scope.

Lemma exact_leb_refl_abs_zero (a : Qc) (tolerance : Qc) :
  0 <= tolerance -> Exact.leb (Exact.abs (a - a)) tolerance = true.
Proof.
  intros Htol. replace (a - a) with 0 by ring.
  unfold Exact.leb. apply Qle_bool_iff. exact Htol.
Qed.

Lemma exact_point_mirror_twice (x : IPoint Qc) :
  point.areEqual x (point.mirror (point.mirror x true false) true false) None = true.
Proof.
  destruct x as [a b].
  unfold point.areEqual, point.mirror, Model.exact_point_areEqual, Model.exact_point_mirror,
    Model.point_areEqual, Model.point_mirror.
  cbn [fst snd default from_option id].
  replace (- - a) with a by ring.
  rewrite !exact_leb_refl_abs_zero; [reflexivity| |]; vm_compute; discriminate.
Qed.

Lemma exact_add_subtract (p d : IPoint Qc) :
  point.add (point.add p d false) d true = p.
Proof.
  destruct p as [a b], d as [c e].
  unfold point.add, Model.exact_point_add, Model.point_add. cbn [fst snd nadd nsub Exact.number].
  f_equal; ring.
Qed.

Lemma exact_angle_mirror_twice (a : Qc) :
  angle.areEqual a (angle.mirror (angle.mirror a true false) true false) = true.
Proof.
  unfold angle.areEqual, angle.mirror, Model.exact_angle_areEqual, Model.exact_angle_mirror,
    Model.angle_areEqual, Model.angle_mirror.
  replace (Exact.of_Z 180 - (Exact.of_Z 180 - a)) with a by ring.
  apply exact_leb_refl_abs_zero. vm_compute. discriminate.
Qed.

End ExactLaws.

(** ** Worked inputs *)

Section Worked.
Import Scenario.

(** The arc from 350 to 10 degrees broken at 5 degrees: the search takes
    the offset +360 and resolves the break angle to 365. *)
Lemma breakAtPoint_arc_resolution_350_10 :
  path.breakAtPoint (Some arc_350_10) (Some (q 5, q 0)) (Some (q 5)) None
  = (Some {| origin := (q 0, q 0); layer := None; geometry := OfArc (q 5) (q 350) (q 365) |},
     Some {| origin := (q 0, q 0); layer := None; geometry := OfArc (q 5) (q 365) (q 10) |}).
Proof.
  refine (proj2 (breakAtPoint_arc_resolution arc_350_10 (q 5, q 0) (Some (q 5)) None
                   eq_refl _ _)
            [q 0] (q 1) [q (-1)] eq_refl _ _).
  - vm_compute. reflexivity.
  - vm_compute. reflexivity.
  - intros u [<-|[]]. vm_compute. reflexivity.
  - vm_compute. reflexivity.
Defined.

(** The same call, evaluated: the source's [endAngle] becomes 365 and the
    returned arc starts at 365; neither is 5. *)
Lemma breakAtPoint_arc_350_10_at_5 :
  path.breakAtPoint (Some arc_350_10) (Some (q 5, q 0)) (Some (q 5)) None
  = (Some {| origin := (q 0, q 0); layer := None; geometry := OfArc (q 5) (q 350) (q 365) |},
     Some {| origin := (q 0, q 0); layer := None; geometry := OfArc (q 5) (q 365) (q 10) |})
  /\ Exact.eqb (q 365) (q 5) = false.
Proof. split; vm_compute; reflexivity. Qed.

(** The circle of radius 3 broken at [3, 0] becomes the arc from 0 to 360
    degrees, and the call returns null. *)
Lemma breakAtPoint_circle_3 :
  type {| origin := (q 0, q 0); layer := None; geometry := OfArc (q 3) (q 0) (q 360) |}
  = pathType.Arc
  /\ path.breakAtPoint (Some circle_3) (Some (q 3, q 0)) None None
     = (Some {| origin := (q 0, q 0); layer := None; geometry := OfArc (q 3) (q 0) (q 360) |},
        None).
Proof.
  exact (breakAtPoint_circle circle_3 (q 3, q 0) None None eq_refl).
Defined.

(** The line from [0, 0] to [10, 0] broken at [5, 0]. *)
Lemma breakAtPoint_line_0_10 :
  path.breakAtPoint (Some line_0_10) (Some (q 5, q 0)) None None
  = (Some {| origin := (q 0, q 0); layer := None; geometry := OfLine (q 5, q 0) |},
     Some {| origin := (q 5, q 0); layer := None; geometry := OfLine (q 10, q 0) |}).
Proof.
  refine (proj2 (breakAtPoint_line line_0_10 (q 5, q 0) None None eq_refl) _).
  vm_compute. reflexivity.
Defined.

(** The arc from 0 to 90 degrees broken at 90 degrees, its end. *)
Lemma breakAtPoint_arc_0_90_at_90 :
  path.breakAtPoint (Some arc_0_90) (Some (q 0, q 5)) (Some (q 90)) None
  = (Some arc_0_90, None).
Proof.
  refine (breakAtPoint_arc_at_end arc_0_90 (q 0, q 5) (Some (q 90)) None eq_refl _).
  right. vm_compute. reflexivity.
Defined.

(** A quadratic curve and no point of break. *)
Lemma breakAtPoint_bezier_0_10 :
  path.breakAtPoint (Some bezier_0_10) None None (Some (Q2Qc (1 # 2)))
  = (Some bezier_0_10, None)
  /\ (forall (pt1 pt2 : IPoint Qc) (angle1 angle2 : option Qc),
        path.breakAtPoint (Some bezier_0_10) (Some pt1) angle1 (Some (Q2Qc (1 # 2)))
        = path.breakAtPoint (Some bezier_0_10) (Some pt2) angle2 (Some (Q2Qc (1 # 2)))).
Proof.
  exact (breakAtPoint_bezier_needs_point bezier_0_10 None (Some (Q2Qc (1 # 2))) eq_refl).
Defined.

(** The arc from 0 to 90 degrees broken at 45 degrees. *)
Lemma breakAtPoint_arc_0_90_frame :
  origin {| origin := (q 0, q 0); layer := None; geometry := OfArc (q 5) (q 0) (q 45) |}
  = origin arc_0_90
  /\ layer {| origin := (q 0, q 0); layer := None; geometry := OfArc (q 5) (q 0) (q 45) |}
     = layer arc_0_90
  /\ exists endAngle',
       geometry {| origin := (q 0, q 0); layer := None; geometry := OfArc (q 5) (q 0) (q 45) |}
       = OfArc (q 5) (q 0) endAngle'.
Proof.
  refine (breakAtPoint_arc_frame arc_0_90 (Some (q 1, q 1)) (Some (q 45)) None
            (piece := {| origin := (q 0, q 0); layer := None;
                         geometry := OfArc (q 5) (q 45) (q 90) |})
            eq_refl _).
  vm_compute. reflexivity.
Defined.

(** Two copies of one curve. *)
Lemma areEqual_bezier_0_10 :
  (type bezier_0_10 = pathType.Bezier -> path.areEqual bezier_0_10 bezier_0_10 None = None)
  /\ path.areEqual bezier_0_10 bezier_0_10 None <> Some true.
Proof.
  exact (areEqual_bezier_never_true bezier_0_10 bezier_0_10 None eq_refl).
Defined.



(** The arc from 0 to 90 degrees turned by 90 degrees about [0, 0]. *)
Lemma rotate_arc_0_90 :
  path.rotate (Some arc_0_90) (q 90) (q 0, q 0)
  = Some {| origin := (q 0, q 0); layer := None; geometry := OfArc (q 5) (q 90) (q 180) |}.
Proof.
  refine (rotate_arc arc_0_90 (q 90) (q 0, q 0) eq_refl _).
  vm_compute. reflexivity.
Defined.

(** In IEEE doubles: a line from [1, 0] to [3, 4] moved by [2, 5], and a
    circle with no delta, for the time of a task that does nothing.  None
    of the additions rounds. *)
Lemma moveTemporary_store_ieee_exact :
  path.moveTemporary (fun st => st) store_ieee_exact = store_ieee_exact.
Proof.
  refine (moveTemporary_restores (fun st => st) (st := store_ieee_exact) _ _ eq_refl).
  - apply (bool_decide_unpack _). vm_compute. exact I.
  - intros [|[|k]] r p d x Hk Hp Hd Hx; try discriminate Hd.
    injection Hk as <-. injection Hp as <-. injection Hd as <-.
    destruct Hx as [<-|[<-|[]]]; vm_compute; reflexivity.
Defined.

(** In IEEE doubles [1 + 2^53 - 2^53] is 0: the line that was at [1, 0]
    is at [0, 0] after [moveTemporary], with a task that does nothing.
    And a line listed twice, with the deltas [1] and [2^53 - 1], each of
    which alone is added and subtracted without rounding, is at [0, 0]
    afterwards as well. *)
Lemma moveTemporary_rounding :
  (path.heap (path.moveTemporary (fun st => st) store_ieee)
   = [paths.Line (nlit 0, nlit 0) (nlit 0, nlit 0)]
   /\ path.heap store_ieee = [paths.Line (nlit 1, nlit 0) (nlit 1, nlit 0)]
   /\ (nlit 0 == nlit 1)%js = false)
  /\
  (path.heap (path.moveTemporary (fun st => st) store_ieee_twice)
   = [paths.Line (nlit 0, nlit 0) (nlit 0, nlit 0)]
   /\ path.heap store_ieee_twice = [line_ieee_1]
   /\ path.moveRelative
        (path.moveRelative (Some line_ieee_1) (Some (nlit 1, nlit 0)) false)
        (Some (nlit 1, nlit 0)) true
      = Some line_ieee_1
   /\ path.moveRelative
        (path.moveRelative (Some line_ieee_1) (Some (nlit 9007199254740991, nlit 0)) false)
        (Some (nlit 9007199254740991, nlit 0)) true
      = Some line_ieee_1).
Proof. repeat split; vm_compute; reflexivity. Qed.

End Worked.

(** ** Mirror images *)

Section MirrorImage.
Context {num : Type}.
Context `{point.Mirror num, angle.OfArcEnd num, angle.Mirror num}.

(** X1: [mirror] returns, for a path of any of the four types, a path of
    the same type that carries the source's layer. *)
Theorem mirror_keeps_type_and_layer (p : IPath num) (mirrorX mirrorY : bool) :
  exists image : IPath num,
    path.mirror (Some p) mirrorX mirrorY = Some image
    /\ type image = type p /\ layer image = layer p.
Proof.
  destruct (geometry p) as [e|r|r s e|e c cs] eqn:Hgeo.
  - unfold path.mirror, path.mirrorMap, path.copyLayer. rewrite Hgeo.
    unfold type. rewrite Hgeo.
    destruct (layer p); eexists; repeat split; reflexivity.
  - unfold path.mirror, path.mirrorMap, path.copyLayer. rewrite Hgeo.
    unfold type. rewrite Hgeo.
    destruct (layer p); eexists; repeat split; reflexivity.
  - unfold path.mirror, path.mirrorMap, path.copyLayer. rewrite Hgeo.
    unfold type. rewrite Hgeo.
    destruct (layer p); eexists; repeat split; reflexivity.
  - destruct (mirror_bezier p mirrorX mirrorY Hgeo) as (image & Himage & Timage & Limage).
    exists image. split; [exact Himage|]. split; [|exact Limage].
    rewrite Timage. unfold type. rewrite Hgeo. reflexivity.
Qed.

(** X2: mirrored on no axis, an arc comes back with [angle.ofArcEnd] of
    the arc as its [endAngle] (provided the point and angle helpers leave
    their argument alone when no axis is given): the copy of an arc that
    passes 0 degrees ends one turn higher than the arc. *)
Theorem mirror_no_axis_arc (arc : IPath num) (radius startAngle endAngle : num) :
  geometry arc = OfArc radius startAngle endAngle ->
  (forall x : IPoint num, point.mirror x false false = x) ->
  (forall a : num, angle.mirror a false false = a) ->
  path.mirror (Some arc) false false
  = Some (set_geometry (OfArc radius startAngle (angle.ofArcEnd arc)) arc).
Proof.
  intros Hgeo Hpoint Hangle.
  unfold path.mirror, path.mirrorMap, path.mirrorMap_Arc. rewrite Hgeo.
  cbn [xorb]. rewrite Hpoint, !Hangle. unfold paths.Arc, set_geometry.
  apply copied_layer.
Qed.

End MirrorImage.

(** ** The transformations in place *)

Section InPlace.
Context {num : Type} `{JsNumber num}.
Context `{point.Add num, point.Subtract num, point.Rotate num, point.Scale num}.
Context `{angle.NoRevolutions num}.

Local Open Scope js_scope.

Lemma moveRelative_type_layer (p : IPath num) (d : option (IPoint num)) (subtract : bool) :
  exists p', path.moveRelative (Some p) d subtract = Some p'
             /\ type p' = type p /\ layer p' = layer p.
Proof.
  destruct d as [d|]; [|exists p; repeat split].
  unfold path.moveRelative, path.moveRelativeMap, type. cbn [geometry set_origin].
  destruct (geometry p) as [e|r|r s e|e [c|] cs] eqn:Hgeo;
    eexists; (split; [reflexivity|]); cbn [geometry layer set_geometry set_origin];
    rewrite ?Hgeo; split; reflexivity.
Qed.

Lemma move_type_layer (p : IPath num) (origin_ : IPoint num) :
  exists p', path.move (Some p) origin_ = Some p'
             /\ type p' = type p /\ layer p' = layer p.
Proof.
  unfold path.move, path.moveMap, type.
  destruct (geometry p) as [e|r|r s e|e [c|] cs] eqn:Hgeo;
    eexists; (split; [reflexivity|]); cbn [geometry layer set_geometry set_origin];
    rewrite ?Hgeo; split; reflexivity.
Qed.

Lemma rotate_type_layer (p : IPath num) (angleInDegrees : num) (rotationOrigin : IPoint num) :
  exists p', path.rotate (Some p) angleInDegrees rotationOrigin = Some p'
             /\ type p' = type p /\ layer p' = layer p.
Proof.
  unfold path.rotate. destruct (angleInDegrees == nlit 0); [exists p; repeat split|].
  unfold path.rotateMap, type. cbn [geometry set_origin].
  destruct (geometry p) as [e|r|r s e|e [c|] cs] eqn:Hgeo;
    eexists; (split; [reflexivity|]); cbn [geometry layer set_geometry set_origin];
    rewrite ?Hgeo; split; reflexivity.
Qed.

Lemma scale_type_layer (p : IPath num) (scaleValue : num) :
  exists p', path.scale (Some p) scaleValue = Some p'
             /\ type p' = type p /\ layer p' = layer p.
Proof.
  unfold path.scale. destruct (scaleValue == nlit 1); [exists p; repeat split|].
  unfold path.scaleMap, type. cbn [geometry set_origin].
  destruct (geometry p) as [e|r|r s e|e [c|] cs] eqn:Hgeo;
    eexists; (split; [reflexivity|]); cbn [geometry layer set_geometry set_origin];
    rewrite ?Hgeo; split; reflexivity.
Qed.

(** X3: [moveRelative], [move], [rotate] and [scale] return a path for
    every path they are given, and it has the type and the layer of the
    path given: the transformations in place neither retag a path nor
    touch its layer. *)
Theorem transforms_keep_type_and_layer (p : IPath num) :
  (forall (delta : option (IPoint num)) (subtract : bool),
     exists p', path.moveRelative (Some p) delta subtract = Some p'
                /\ type p' = type p /\ layer p' = layer p)
  /\ (forall origin_ : IPoint num,
        exists p', path.move (Some p) origin_ = Some p'
                   /\ type p' = type p /\ layer p' = layer p)
  /\ (forall (angleInDegrees : num) (rotationOrigin : IPoint num),
        exists p', path.rotate (Some p) angleInDegrees rotationOrigin = Some p'
                   /\ type p' = type p /\ layer p' = layer p)
  /\ (forall scaleValue : num,
        exists p', path.scale (Some p) scaleValue = Some p'
                   /\ type p' = type p /\ layer p' = layer p).
Proof.
  repeat split; intros.
  - apply moveRelative_type_layer.
  - apply move_type_layer.
  - apply rotate_type_layer.
  - apply scale_type_layer.
Qed.

(** X4: the four transformations in place keep the arity of a curve's
    control points: a curve with a single [control] keeps a single
    control, and an array of [controls] keeps its length. *)
Theorem transforms_keep_control_arity (bez : IPath num) (end_ : IPoint num)
    (control : option (IPoint num)) (controls : list (IPoint num)) (p' : IPath num) :
  geometry bez = OfBezier end_ control controls ->
  (exists delta subtract, path.moveRelative (Some bez) delta subtract = Some p')
  \/ (exists origin_, path.move (Some bez) origin_ = Some p')
  \/ (exists angleInDegrees rotationOrigin,
        path.rotate (Some bez) angleInDegrees rotationOrigin = Some p')
  \/ (exists scaleValue, path.scale (Some bez) scaleValue = Some p') ->
  exists end' control' controls',
    geometry p' = OfBezier end' control' controls'
    /\ (is_Some control' <-> is_Some control)
    /\ length controls' = length controls.
Proof.
  intros Hgeo [(d & s & Hp)|[(o & Hp)|[(a & c & Hp)|(f & Hp)]]].
  - destruct d as [d|].
    + unfold path.moveRelative, path.moveRelativeMap in Hp.
      cbn [geometry set_origin] in Hp. rewrite Hgeo in Hp.
      destruct control; injection Hp as <-; cbn [geometry set_geometry];
        do 3 eexists; (split; [reflexivity|]); rewrite ?List.length_map;
        (split; [|reflexivity]); split; intros [x Hx]; try discriminate Hx; eauto.
    + injection Hp as <-. rewrite Hgeo. do 3 eexists. repeat split; auto.
  - unfold path.move, path.moveMap in Hp. rewrite Hgeo in Hp.
    destruct control; injection Hp as <-; cbn [geometry set_geometry set_origin];
      do 3 eexists; (split; [reflexivity|]); rewrite ?List.length_map;
        (split; [|reflexivity]); split; intros [x Hx]; try discriminate Hx; eauto.
  - unfold path.rotate in Hp. destruct (a == nlit 0).
    + injection Hp as <-. rewrite Hgeo. do 3 eexists. repeat split; auto.
    + unfold path.rotateMap in Hp. cbn [geometry set_origin] in Hp. rewrite Hgeo in Hp.
      destruct control; injection Hp as <-; cbn [geometry set_geometry];
        do 3 eexists; (split; [reflexivity|]); rewrite ?List.length_map;
        (split; [|reflexivity]); split; intros [x Hx]; try discriminate Hx; eauto.
  - unfold path.scale in Hp. destruct (f == nlit 1).
    + injection Hp as <-. rewrite Hgeo. do 3 eexists. repeat split; auto.
    + unfold path.scaleMap in Hp. cbn [geometry set_origin] in Hp. rewrite Hgeo in Hp.
      destruct control; injection Hp as <-; cbn [geometry set_geometry];
        do 3 eexists; (split; [reflexivity|]); rewrite ?List.length_map;
        (split; [|reflexivity]); split; intros [x Hx]; try discriminate Hx; eauto.
Qed.

End InPlace.

(** ** Moving to a point *)

Section Move.
Context {num : Type}.
Context `{point.Add num, point.Subtract num}.

(** X5: [move] sets the origin to the very point it is given; of a circle
    or an arc nothing else changes, of a line only the end. *)
Theorem move_sets_origin (p : IPath num) (origin_ : IPoint num) :
  exists p' : IPath num,
    path.move (Some p) origin_ = Some p'
    /\ origin p' = origin_
    /\ match geometry p with
       | OfCircle _ | OfArc _ _ _ => geometry p' = geometry p
       | OfLine end_ =>
           geometry p' = OfLine (point.add origin_ (point.subtract end_ (origin p)) false)
       | OfBezier _ _ _ => True
       end.
Proof.
  unfold path.move, path.moveMap, path.movePoint.
  destruct (geometry p) as [e|r|r s e|e [c|] cs] eqn:Hgeo;
    eexists; (split; [reflexivity|]); cbn [origin geometry set_origin set_geometry];
    rewrite ?Hgeo; split; reflexivity || exact I.
Qed.

(** X6: where subtracting a point from its sum with a delta gives the
    delta back, moving a path to one origin and then to another is moving
    it to the second: the first move leaves no trace. *)
Theorem move_move (p : IPath num) (origin1 origin2 : IPoint num) :
  (forall a d : IPoint num, point.subtract (point.add a d false) a = d) ->
  path.move (path.move (Some p) origin1) origin2 = path.move (Some p) origin2.
Proof.
  intros Hlaw. unfold path.move, path.moveMap, path.movePoint.
  destruct p as [o l g].
  destruct g as [e|r|r s e|e [c|] cs];
    unfold set_origin, set_geometry; cbn [origin geometry layer];
    rewrite ?Hlaw; try reflexivity.
  rewrite List.map_map.
  do 3 f_equal. apply List.map_ext. intros x. rewrite Hlaw. reflexivity.
Qed.

(** X7: where adding to [o + d] the difference [e - o] gives [e + d],
    moving a path to its origin plus a delta is [moveRelative] by that
    delta. *)
Theorem move_is_moveRelative (p : IPath num) (delta : IPoint num) :
  (forall o e d : IPoint num,
     point.add (point.add o d false) (point.subtract e o) false = point.add e d false) ->
  path.move (Some p) (point.add (origin p) delta false)
  = path.moveRelative (Some p) (Some delta) false.
Proof.
  intros Hlaw.
  unfold path.move, path.moveMap, path.movePoint, path.moveRelative, path.moveRelativeMap.
  destruct p as [o l g].
  destruct g as [e|r|r s e|e [c|] cs];
    unfold set_origin, set_geometry; cbn [origin geometry layer];
    rewrite ?Hlaw; try reflexivity.
  do 3 f_equal. apply List.map_ext. intros x. apply Hlaw.
Qed.

End Move.

(** ** Scaling, and the coordinate fix of the exporter *)

Section Scale.
Context {num : Type} `{JsNumber num} `{point.Scale num}.

Local Open Scope js_scope.

(** What [scale] makes of a path when the factor is not [== 1]. *)
Local Abbreviation scaled a p :=
  (path.scaleMap (set_origin (point.scale (origin p) a) p) a).

(** The radius of a circle or an arc, which [scaleMap] multiplies. *)
Local Abbreviation radiusHolds p P :=
  (match geometry p with
   | OfCircle r | OfArc r _ _ => P r
   | _ => True
   end).

Lemma scaled_scaled (p : IPath num) (a b : num) :
  (forall x, In x (path.pointsOf p) -> point.scale (point.scale x a) b = point.scale x (a * b)) ->
  radiusHolds p (fun r => r * a * b = r * (a * b)) ->
  scaled b (scaled a p) = scaled (a * b) p.
Proof.
  destruct p as [o l g]. unfold path.pointsOf. cbn [origin geometry].
  intros Hpoint Hradius.
  destruct g as [e|r|r s e|e [c|] cs];
    unfold path.scaleMap, set_origin, set_geometry; cbn [origin geometry layer];
    rewrite (Hpoint o) by (left; reflexivity).
  - rewrite (Hpoint e) by (right; left; reflexivity). reflexivity.
  - rewrite Hradius. reflexivity.
  - rewrite Hradius. reflexivity.
  - rewrite (Hpoint e) by (right; left; reflexivity).
    rewrite (Hpoint c) by (right; right; left; reflexivity). reflexivity.
  - rewrite (Hpoint e) by (right; left; reflexivity).
    rewrite List.map_map. do 2 f_equal. apply List.map_ext_in.
    intros x Hx. apply Hpoint. right. right. exact Hx.
Qed.

Lemma scaled_one (p : IPath num) (c : num) :
  (forall x, In x (path.pointsOf p) -> point.scale x c = x) ->
  radiusHolds p (fun r => r * c = r) ->
  scaled c p = p.
Proof.
  destruct p as [o l g]. unfold path.pointsOf. cbn [origin geometry].
  intros Hpoint Hradius.
  destruct g as [e|r|r s e|e [c'|] cs];
    unfold path.scaleMap, set_origin, set_geometry; cbn [origin geometry layer];
    rewrite (Hpoint o) by (left; reflexivity).
  - rewrite (Hpoint e) by (right; left; reflexivity). reflexivity.
  - rewrite Hradius. reflexivity.
  - rewrite Hradius. reflexivity.
  - rewrite (Hpoint e) by (right; left; reflexivity).
    rewrite (Hpoint c') by (right; right; left; reflexivity). reflexivity.
  - rewrite (Hpoint e) by (right; left; reflexivity).
    assert (List.map (fun x => point.scale x c) cs = cs) as ->; [|reflexivity].
    rewrite (List.map_ext_in _ (fun x => x)); [apply List.map_id|].
    intros x Hx. apply Hpoint. right. right. exact Hx.
Qed.

(** X8: scaling a path by [a] and then by [b] is scaling it by [a * b],
    also where the test [scaleValue == 1] cuts one of the three calls
    short, provided that on the numbers of this path the scaling is exact:
    scaling each point of the path, and its radius, by [a] and then by [b]
    is scaling it by [a * b]; a factor that is [== 1] is neutral in the
    product [a * b]; and when the product is [== 1], scaling by it returns
    each point of the path, and its radius.  In IEEE doubles the provisos
    hold wherever the products do not round. *)
Theorem scale_scale (p : IPath num) (a b : num) :
  ((a == nlit 1) = true -> a * b = b) ->
  ((b == nlit 1) = true -> a * b = a) ->
  (forall x, In x (path.pointsOf p) ->
     point.scale (point.scale x a) b = point.scale x (a * b)) ->
  match geometry p with
  | OfCircle r | OfArc r _ _ => r * a * b = r * (a * b)
  | _ => True
  end ->
  ((a * b == nlit 1) = true ->
   (forall x, In x (path.pointsOf p) -> point.scale x (a * b) = x)
   /\ match geometry p with
      | OfCircle r | OfArc r _ _ => r * (a * b) = r
      | _ => True
      end) ->
  path.scale (path.scale (Some p) a) b = path.scale (Some p) (a * b).
Proof.
  intros Hone_l Hone_r Hpoint Hradius Hone. unfold path.scale.
  destruct (a == nlit 1) eqn:Ea.
  - rewrite (Hone_l eq_refl). reflexivity.
  - destruct (b == nlit 1) eqn:Eb.
    + rewrite (Hone_r eq_refl), Ea. reflexivity.
    + rewrite (scaled_scaled Hpoint Hradius).
      destruct (a * b == nlit 1) eqn:Eab; [|reflexivity].
      destruct (Hone eq_refl) as [Hone_point Hone_radius].
      rewrite (scaled_one Hone_point Hone_radius). reflexivity.
Qed.

End Scale.

Section ExactScale.
Local Open Scope Qc_scope.

Lemma exact_eqb_eq (a b : Qc) : Exact.eqb a b = true <-> a = b.
Proof.
  unfold Exact.eqb. rewrite Qeq_bool_iff.
  split; [apply Qc_is_canon | intros ->; reflexivity].
Qed.

Lemma exact_point_scale_one (x : IPoint Qc) : point.scale x 1 = x.
Proof.
  destruct x as [u v]. unfold point.scale, Model.exact_point_scale, Model.point_scale.
  cbn [fst snd nmul Exact.number]. f_equal; ring.
Qed.

End ExactScale.

Section FixPath.
Context {num : Type} `{JsNumber num}.
Context `{point.Add num, point.Mirror num, point.Scale num}.
Context `{angle.OfArcEnd num, angle.Mirror num}.

Local Open Scope js_scope.

(** X9: on a line, [fixPath] does to both end points what [fixPoint] does
    to a point, and then adds the origin of the drawing; on a circle or an
    arc it does so to the center, and multiplies the radius by the scale
    unless the scale is [== 1]; the arc's angles are mirrored and change
    places.  ([scale] skips a factor [== 1], [fixPoint] does
    not: the two agree provided [point.scale] by such a factor returns
    its point.) *)
Theorem fixPath_fixPoint (opts_scale : num) (p : IPath num) (origin_ : IPoint num) :
  ((opts_scale == nlit 1) = true -> forall x : IPoint num, point.scale x opts_scale = x) ->
  match geometry p with
  | OfLine end_ =>
      exporter.fixPath opts_scale (Some p) (Some origin_)
      = Some {| origin := point.add (exporter.fixPoint opts_scale (origin p)) origin_ false;
                layer := layer p;
                geometry :=
                  OfLine (point.add (exporter.fixPoint opts_scale end_) origin_ false) |}
  | OfCircle radius =>
      exporter.fixPath opts_scale (Some p) (Some origin_)
      = Some {| origin := point.add (exporter.fixPoint opts_scale (origin p)) origin_ false;
                layer := layer p;
                geometry :=
                  OfCircle (if opts_scale == nlit 1 then radius else radius * opts_scale) |}
  | OfArc radius startAngle _ =>
      exporter.fixPath opts_scale (Some p) (Some origin_)
      = Some {| origin := point.add (exporter.fixPoint opts_scale (origin p)) origin_ false;
                layer := layer p;
                geometry :=
                  OfArc (if opts_scale == nlit 1 then radius else radius * opts_scale)
                    (angle.mirror (angle.ofArcEnd p) false true)
                    (angle.mirror startAngle false true) |}
  | OfBezier _ _ _ => True
  end.
Proof.
  intros Hone. destruct p as [o l g].
  destruct g as [e|r|r s e|e c cs]; cbn [geometry]; try exact I.
  - unfold exporter.fixPath, exporter.fixPoint, path.mirror, path.mirrorMap,
      path.mirrorMap_Line, paths.Line, path.copyLayer.
    cbn [geometry origin layer].
    destruct (opts_scale == nlit 1) eqn:Escale.
    + rewrite !(Hone eq_refl).
      destruct l; unfold path.scale; rewrite Escale; reflexivity.
    + destruct l; unfold path.scale; rewrite Escale; reflexivity.
  - unfold exporter.fixPath, exporter.fixPoint, path.mirror, path.mirrorMap,
      path.mirrorMap_Circle, paths.Circle, path.copyLayer.
    cbn [geometry origin layer].
    destruct (opts_scale == nlit 1) eqn:Escale.
    + rewrite !(Hone eq_refl).
      destruct l; unfold path.scale; rewrite Escale; reflexivity.
    + destruct l; unfold path.scale; rewrite Escale; reflexivity.
  - unfold exporter.fixPath, exporter.fixPoint, path.mirror, path.mirrorMap,
      path.mirrorMap_Arc, paths.Arc, path.copyLayer.
    cbn [geometry origin layer xorb].
    destruct (opts_scale == nlit 1) eqn:Escale.
    + rewrite !(Hone eq_refl).
      destruct l; unfold path.scale; rewrite Escale; reflexivity.
    + destruct l; unfold path.scale; rewrite Escale; reflexivity.
Qed.

End FixPath.

(** ** More on breaking *)

Section ForReturnInversion.
Context {A B : Type}.

Lemma forReturn_Some_inv (body : A -> option B) (arr : list A) (r : B) :
  forReturn body arr = Some r -> exists x, In x arr /\ body x = Some r.
Proof.
  induction arr as [|x rest IH]; simpl; intros Hr.
  - discriminate Hr.
  - destruct (body x) as [r'|] eqn:Hx.
    + injection Hr as <-. exists x. split; [left; reflexivity|exact Hx].
    + destruct (IH Hr) as (y & Hy & Hby). exists y. split; [right; exact Hy|exact Hby].
Qed.

End ForReturnInversion.

Section BreakMore.
Context {num : Type} `{JsNumber num}.
Context `{angle.NoRevolutions num, angle.OfArcEnd num, angle.OfPointInDegrees num}.
Context `{measure.IsAngleEqual num, measure.IsBetween num, measure.IsBetweenPoints num}.
Context `{bezier.BreakAt num}.

Local Open Scope js_scope.

(** X10: an angle of break that is falsy (0, or NaN) counts as not given:
    [breakAtPoint] then works with the polar angle of the point of
    break. *)
Theorem breakAtPoint_falsy_angle (p : IPath num) (pointOfBreak : IPoint num)
    (angleOfBreak : num) (tOfBreak : option num) :
  truthy angleOfBreak = false ->
  path.breakAtPoint (Some p) (Some pointOfBreak) (Some angleOfBreak) tOfBreak
  = path.breakAtPoint (Some p) (Some pointOfBreak) None tOfBreak.
Proof.
  intros Hfalsy.
  unfold path.breakAtPoint, path.breakPathFunctionMap, path.breakPathFunctionMap_Arc.
  destruct (geometry p); try reflexivity.
  unfold orElse. rewrite Hfalsy. reflexivity.
Qed.

(** X11: a circle cannot be broken twice at one point: the first call
    makes it an arc that starts at the point's angle, and the second call
    (where [measure.isAngleEqual] accepts that angle against itself)
    returns null and leaves the arc as it is. *)
Theorem breakAtPoint_circle_twice (circle : IPath num) (radius : num)
    (pointOfBreak : IPoint num) (angleOfBreak tOfBreak tOfBreak' : option num) :
  geometry circle = OfCircle radius ->
  (let a := angle.ofPointInDegrees (origin circle) pointOfBreak in
   measure.isAngleEqual a a = true) ->
  exists arc : IPath num,
    path.breakAtPoint (Some circle) (Some pointOfBreak) angleOfBreak tOfBreak = (Some arc, None)
    /\ type arc = pathType.Arc
    /\ path.breakAtPoint (Some arc) (Some pointOfBreak) None tOfBreak' = (Some arc, None).
Proof.
  intros Hgeo Hrefl.
  exists {| origin := origin circle; layer := layer circle;
            geometry := OfArc radius (angle.ofPointInDegrees (origin circle) pointOfBreak)
                          (angle.ofPointInDegrees (origin circle) pointOfBreak + nlit 360) |}.
  split; [|split; [reflexivity|]].
  - rewrite breakAtPoint_dispatch
      with (p' := {| origin := origin circle; layer := layer circle;
                     geometry := OfArc radius
                                   (angle.ofPointInDegrees (origin circle) pointOfBreak)
                                   (angle.ofPointInDegrees (origin circle) pointOfBreak
                                    + nlit 360) |})
           (result := None); [reflexivity|].
    unfold path.breakPathFunctionMap. rewrite Hgeo. reflexivity.
  - unfold path.breakAtPoint, path.breakPathFunctionMap, path.breakPathFunctionMap_Arc.
    cbn [geometry origin orElse]. cbv zeta in Hrefl. rewrite Hrefl. reflexivity.
Qed.

(** X12: when [breakAtPoint] returns a piece of a line or of an arc, the
    piece has the type and the layer of the source, and the source keeps
    its type, its layer and its origin. *)
Theorem breakAtPoint_piece (p : IPath num) (pointOfBreak : option (IPoint num))
    (angleOfBreak tOfBreak : option num) (p' piece : IPath num) :
  type p <> pathType.Bezier ->
  path.breakAtPoint (Some p) pointOfBreak angleOfBreak tOfBreak = (Some p', Some piece) ->
  type piece = type p /\ layer piece = layer p
  /\ type p' = type p /\ layer p' = layer p /\ origin p' = origin p.
Proof.
  intros Hcurve Hbreak.
  destruct pointOfBreak as [pt|]; [|discriminate Hbreak].
  unfold path.breakAtPoint, path.breakPathFunctionMap in Hbreak.
  unfold type in *.
  destruct (geometry p) as [e|r|r s e|e c cs] eqn:Hgeo.
  - unfold path.breakPathFunctionMap_Line in Hbreak.
    destruct (measure.isBetweenPoints pt p true); [|discriminate Hbreak].
    cbn [negb layer set_geometry] in Hbreak.
    destruct (layer p) eqn:Hlayer; injection Hbreak as <- <-;
      cbn [geometry layer origin set_layer set_geometry paths.Line];
      rewrite ?Hlayer; repeat split.
  - discriminate Hbreak.
  - unfold path.breakPathFunctionMap_Arc in Hbreak.
    destruct (measure.isAngleEqual _ s || measure.isAngleEqual _ e);
      [discriminate Hbreak|].
    destruct (path.getAngleStrictlyBetweenArcAngles p s _) as [between|];
      [|discriminate Hbreak].
    cbn [layer set_geometry] in Hbreak.
    destruct (layer p) eqn:Hlayer; injection Hbreak as <- <-;
      cbn [geometry layer origin set_layer set_geometry paths.Arc];
      rewrite ?Hlayer; repeat split.
  - contradiction Hcurve. reflexivity.
Qed.

(** X13: an arc is split only strictly inside its sweep: when
    [breakAtPoint] returns a piece of an arc, the break angle is at
    neither end of the arc, and for one of the offsets 0, 1, -1 (times
    360) it lies between the normalized start and the end; the source
    then ends, and the piece starts, at
    [startAngle + breakAngle + offset - start], and the piece ends where
    the source ended. *)
Theorem breakAtPoint_arc_inversion (arc : IPath num) (radius startAngle endAngle : num)
    (pointOfBreak : IPoint num) (angleOfBreak tOfBreak : option num)
    (arc' piece : IPath num) :
  geometry arc = OfArc radius startAngle endAngle ->
  path.breakAtPoint (Some arc) (Some pointOfBreak) angleOfBreak tOfBreak
  = (Some arc', Some piece) ->
  let angleAtBreakPoint :=
    orElse angleOfBreak (angle.ofPointInDegrees (origin arc) pointOfBreak) in
  let start := angle.noRevolutions startAngle in
  let end_ := start + angle.ofArcEnd arc - startAngle in
  measure.isAngleEqual angleAtBreakPoint startAngle = false
  /\ measure.isAngleEqual angleAtBreakPoint endAngle = false
  /\ exists t : num,
       In t [nlit 0; nlit 1; nlit (-1)]
       /\ measure.isBetween (angleAtBreakPoint + nlit 360 * t) start end_ true = true
       /\ geometry arc'
          = OfArc radius startAngle (startAngle + angleAtBreakPoint + nlit 360 * t - start)
       /\ geometry piece
          = OfArc radius (startAngle + angleAtBreakPoint + nlit 360 * t - start) endAngle.
Proof.
  intros Hgeo Hbreak a start end_.
  unfold path.breakAtPoint, path.breakPathFunctionMap in Hbreak.
  rewrite Hgeo in Hbreak. unfold path.breakPathFunctionMap_Arc in Hbreak.
  fold a in Hbreak.
  destruct (measure.isAngleEqual a startAngle) eqn:Hs; [discriminate Hbreak|].
  destruct (measure.isAngleEqual a endAngle) eqn:He; [discriminate Hbreak|].
  cbn [orb] in Hbreak.
  destruct (path.getAngleStrictlyBetweenArcAngles arc startAngle a) as [between|] eqn:Hsearch;
    [|discriminate Hbreak].
  split; [reflexivity|]. split; [reflexivity|].
  unfold path.getAngleStrictlyBetweenArcAngles in Hsearch.
  apply forReturn_Some_inv in Hsearch. destruct Hsearch as (t & Ht & Hbody).
  fold start end_ in Hbody.
  exists t. split; [exact Ht|].
  destruct (measure.isBetween (a + nlit 360 * t) start end_ true); [|discriminate Hbody].
  injection Hbody as <-. split; [reflexivity|].
  cbn [layer set_geometry] in Hbreak.
  destruct (layer arc); injection Hbreak as <- <-; split; reflexivity.
Qed.

End BreakMore.

(** ** More on equality *)

Section EqualityMore.
Context {num : Type} `{JsNumber num}.
Context `{point.AreEqual num, angle.AreEqual num, point.Clone num}.

Local Open Scope js_scope.

(** X14: the comparison of lines is undirected: exchanging the origin and
    the end of the second line does not change the answer of
    [areEqual]. *)
Theorem areEqual_line_undirected (path1 line2 : IPath num) (end2 : IPoint num)
    (withinPointDistance : option num) :
  geometry line2 = OfLine end2 ->
  path.areEqual path1 line2 withinPointDistance
  = path.areEqual path1
      {| origin := end2; layer := layer line2; geometry := OfLine (origin line2) |}
      withinPointDistance.
Proof.
  intros Hgeo. unfold path.areEqual, path.pathAreEqualMap, type. rewrite Hgeo.
  cbn [geometry origin].
  destruct (geometry path1); try reflexivity.
  destruct (decide (pathType.Line = pathType.Line)) as [_|Hdiffer]; [|contradiction].
  unfold path.pathAreEqualMap_Line. rewrite orb_comm. reflexivity.
Qed.

(** X15: where the comparisons of points, of angles and of numbers do not
    depend on the order of their two arguments, neither does [areEqual]
    on paths, null included. *)
Theorem areEqual_sym (path1 path2 : IPath num) (withinPointDistance : option num) :
  (forall a b : IPoint num,
     point.areEqual a b withinPointDistance = point.areEqual b a withinPointDistance) ->
  (forall a b : num, angle.areEqual a b = angle.areEqual b a) ->
  (forall a b : num, (a == b) = (b == a)) ->
  path.areEqual path1 path2 withinPointDistance
  = path.areEqual path2 path1 withinPointDistance.
Proof.
  intros Hpoint Hangle Hnum. unfold path.areEqual, path.pathAreEqualMap, type.
  destruct (geometry path1) as [e1|r1|r1 s1 e1|e1 c1 cs1];
    destruct (geometry path2) as [e2|r2|r2 s2 e2|e2 c2 cs2];
    repeat match goal with
           | |- context [decide ?P] => destruct (decide P); try congruence
           end;
    try reflexivity.
  - unfold path.pathAreEqualMap_Line.
    rewrite (Hpoint (origin path2) (origin path1)), (Hpoint e2 e1),
      (Hpoint (origin path2) e1), (Hpoint e2 (origin path1)).
    rewrite (andb_comm (point.areEqual (origin path1) e2 withinPointDistance)).
    reflexivity.
  - unfold path.pathAreEqualMap_Circle.
    rewrite (Hpoint (origin path2) (origin path1)), (Hnum r2 r1). reflexivity.
  - unfold path.pathAreEqualMap_Arc, path.pathAreEqualMap_Circle.
    rewrite (Hpoint (origin path2) (origin path1)), (Hnum r2 r1),
      (Hangle s2 s1), (Hangle e2 e1). reflexivity.
Qed.

(** X16: where [point.clone] returns its point and the comparisons of
    points and angles accept equal arguments, [clone] returns a path on
    the source's layer that [areEqual] reports equal to a source line; to
    a circle or an arc when the radius [==] itself; for a Bezier curve the
    answer of [areEqual] is null. *)
Theorem clone_areEqual (p : IPath num) (withinPointDistance : option num) :
  (forall x : IPoint num, point.clone x = x) ->
  (forall x : IPoint num, point.areEqual x x withinPointDistance = true) ->
  (forall a : num, angle.areEqual a a = true) ->
  exists copy : IPath num,
    path.clone p = Some copy
    /\ layer copy = layer p
    /\ path.areEqual p copy withinPointDistance
       = match geometry p with
         | OfLine _ => Some true
         | OfCircle radius | OfArc radius _ _ => Some (radius == radius)
         | OfBezier _ _ _ => None
         end.
Proof.
  intros Hclone Hpoint Hangle. destruct p as [o l g].
  unfold path.clone, path.copyLayer, path.areEqual, path.pathAreEqualMap, type.
  cbn [geometry origin layer]. rewrite ?Hclone.
  destruct g as [e|r|r s e|e [c|] cs]; cbn [geometry origin layer];
    rewrite ?Hclone;
    (destruct l; eexists; (split; [reflexivity|]); (split; [reflexivity|]));
    cbn [geometry origin layer set_layer paths.Line paths.Circle paths.Arc paths.BezierOf];
    repeat match goal with
           | |- context [decide ?P] => destruct (decide P); try congruence
           end;
    unfold path.pathAreEqualMap_Arc, path.pathAreEqualMap_Line, path.pathAreEqualMap_Circle;
    rewrite ?Hpoint, ?Hangle, ?andb_true_r; reflexivity.
Qed.

End EqualityMore.

(** ** More on [moveTemporary] *)

Section MoveTemporaryMore.
Context {num : Type} `{point.Add num}.

Local Abbreviation moved d s :=
  (fun p : IPath num => default p (path.moveRelative (Some p) (Some d) s)).

(** X17: a pass of [moveTemporary] over the paths moves no other path and
    allocates none: a path that is not in [pathsToMove] is after the pass
    what it was, and the heap has as many paths as before. *)
Theorem mapMove_frame (subtract : bool) (st : path.Store (num := num)) :
  length (path.heap (path.mapMove subtract st)) = length (path.heap st)
  /\ path.pathsToMove (path.mapMove subtract st) = path.pathsToMove st
  /\ path.deltas (path.mapMove subtract st) = path.deltas st
  /\ forall r : nat,
       ~ In r (path.pathsToMove st) ->
       path.heap (path.mapMove subtract st) !! r = path.heap st !! r.
Proof.
  unfold path.mapMove. cbn [path.heap path.pathsToMove path.deltas].
  split; [apply mapMoveFrom_length|]. split; [reflexivity|]. split; [reflexivity|].
  intros r Hout. apply mapMoveFrom_frame. exact Hout.
Qed.

(** X18: while the task runs, a path that is listed once, at index [k], is
    what [moveRelative] makes of it with [deltas[k]]; it is as before when
    that delta is absent.  Other paths may be listed any number of
    times. *)
Theorem mapMove_entry (subtract : bool) (st : path.Store (num := num)) (k r : nat) :
  path.pathsToMove st !! k = Some r ->
  (forall j, path.pathsToMove st !! j = Some r -> j = k) ->
  path.heap (path.mapMove subtract st) !! r
  = match path.deltas st !! k with
    | Some (Some d) => path.moveRelative (path.heap st !! r) (Some d) subtract
    | _ => path.heap st !! r
    end.
Proof.
  intros Hk Honce. unfold path.mapMove. cbn [path.heap].
  apply (mapMoveFrom_entry subtract (path.deltas st) (path.pathsToMove st) 0%nat
           (path.heap st) Hk Honce).
Qed.

(** X19: where subtracting a delta from a point undoes adding it,
    [moveRelative] with [subtract] undoes [moveRelative] by the same
    delta, on every path: origin, end and control points are back. *)
Theorem moveRelative_round_trip (p : IPath num) (delta : IPoint num) :
  (forall x d : IPoint num, point.add (point.add x d false) d true = x) ->
  path.moveRelative (path.moveRelative (Some p) (Some delta) false) (Some delta) true
  = Some p.
Proof.
  intros Hlaw.
  pose proof (moved_undo Hlaw delta p) as Hundo. cbv beta in Hundo.
  destruct (path.moveRelative (Some p) (Some delta) false) as [p1|] eqn:Hforth.
  - cbn [default from_option id] in Hundo.
    rewrite (moveRelative_moved p1 delta true). f_equal. exact Hundo.
  - rewrite moveRelative_moved in Hforth. discriminate Hforth.
Qed.

End MoveTemporaryMore.

(** ** The type tests *)

Section TypeTests.
Context {num : Type} `{JsNumber num}.
Context `{angle.NoRevolutions num, angle.OfArcEnd num, angle.OfPointInDegrees num}.
Context `{measure.IsAngleEqual num, measure.IsBetween num, measure.IsBetweenPoints num}.
Context `{bezier.BreakAt num}.

(** X20: a circle broken at a point whose polar angle is falsy (0 degrees)
    is an arc by its type tag, and yet passes neither [isPathArc], which
    asks for a truthy [startAngle], nor [isPathCircle]. *)
Theorem isPathArc_after_break (circle : IPath num) (radius : num)
    (pointOfBreak : IPoint num) (angleOfBreak tOfBreak : option num) :
  geometry circle = OfCircle radius ->
  truthy (angle.ofPointInDegrees (origin circle) pointOfBreak) = false ->
  exists arc : IPath num,
    path.breakAtPoint (Some circle) (Some pointOfBreak) angleOfBreak tOfBreak = (Some arc, None)
    /\ type arc = pathType.Arc
    /\ MakerJs.isPathArc (Some arc) = false
    /\ MakerJs.isPathCircle (Some arc) = false.
Proof.
  intros Hgeo Hfalsy.
  unfold path.breakAtPoint, path.breakPathFunctionMap. rewrite Hgeo.
  unfold path.breakPathFunctionMap_Circle. eexists. split; [reflexivity|].
  unfold MakerJs.isPathArc, MakerJs.isPathCircle, type.
  cbn [geometry set_geometry MakerJs.isPath andb]. rewrite Hfalsy.
  rewrite andb_false_r. repeat split.
Qed.

End TypeTests.

(** ** The earlier states of the module, and [extendObject] *)

Section Versions.
Context {num : Type} `{JsNumber num}.
Context `{point.Add num, point.Mirror num, point.Rotate num}.
Context `{point.Clone num, point.Subtract num, point.Scale num}.
Context `{angle.NoRevolutions num, angle.OfArcEnd num, angle.Mirror num}.

Local Open Scope js_scope.

(** X21: on every path that is not a curve, the first state of the module
    does what the module does now, but for the layer, which [mirror] did
    not copy then.  On a curve the first [mirror] returns null, and the
    first [move], [moveRelative], [rotate] and [scale] change the origin
    and leave the end and the control points where they were. *)
Theorem path_v1_agrees (p : IPath num) :
  (type p <> pathType.Bezier ->
   (forall mirrorX mirrorY newId,
      path.mirror (Some p) mirrorX mirrorY
      = path.copyLayer (Some p) (path_v1.mirror (Some p) mirrorX mirrorY newId))
   /\ (forall origin_, path.move (Some p) origin_ = path_v1.move (Some p) origin_)
   /\ (forall delta,
         path.moveRelative (Some p) (Some delta) false = path_v1.moveRelative (Some p) delta)
   /\ (forall angleInDegrees rotationOrigin,
         path.rotate (Some p) angleInDegrees rotationOrigin
         = path_v1.rotate (Some p) angleInDegrees rotationOrigin)
   /\ (forall scaleValue, path.scale (Some p) scaleValue = path_v1.scale (Some p) scaleValue))
  /\
  (type p = pathType.Bezier ->
   (forall mirrorX mirrorY newId, path_v1.mirror (Some p) mirrorX mirrorY newId = None)
   /\ (forall origin_, path_v1.move (Some p) origin_ = Some (set_origin origin_ p))
   /\ (forall delta,
         path_v1.moveRelative (Some p) delta
         = Some (set_origin (point.add (origin p) delta false) p))
   /\ (forall angleInDegrees rotationOrigin,
         (angleInDegrees == nlit 0) = false ->
         path_v1.rotate (Some p) angleInDegrees rotationOrigin
         = Some (set_origin (point.rotate (origin p) angleInDegrees rotationOrigin) p))
   /\ (forall scaleValue,
         (scaleValue == nlit 1) = false ->
         path_v1.scale (Some p) scaleValue
         = Some (set_origin (point.scale (origin p) scaleValue) p))).
Proof.
  unfold type. split; intros Htype.
  - destruct (geometry p) as [e|r|r s e|e c cs] eqn:Hgeo; try (contradiction Htype; reflexivity).
    + repeat split; intros;
        unfold path.mirror, path.mirrorMap, path.mirrorMap_Line, path_v1.mirror,
          path.move, path.moveMap, path.movePoint, path_v1.move,
          path.moveRelative, path.moveRelativeMap, path_v1.moveRelative,
          path.rotate, path.rotateMap, path_v1.rotate,
          path.scale, path.scaleMap, path_v1.scale;
        cbn [geometry set_origin]; rewrite ?Hgeo; reflexivity.
    + repeat split; intros;
        unfold path.mirror, path.mirrorMap, path.mirrorMap_Circle, path_v1.mirror,
          path.move, path.moveMap, path.movePoint, path_v1.move,
          path.moveRelative, path.moveRelativeMap, path_v1.moveRelative,
          path.rotate, path.rotateMap, path_v1.rotate,
          path.scale, path.scaleMap, path_v1.scale;
        cbn [geometry set_origin]; rewrite ?Hgeo; reflexivity.
    + repeat split; intros;
        unfold path.mirror, path.mirrorMap, path.mirrorMap_Arc, path_v1.mirror,
          path.move, path.moveMap, path.movePoint, path_v1.move,
          path.moveRelative, path.moveRelativeMap, path_v1.moveRelative,
          path.rotate, path.rotateMap, path_v1.rotate,
          path.scale, path.scaleMap, path_v1.scale;
        cbn [geometry set_origin]; rewrite ?Hgeo; reflexivity.
  - destruct (geometry p) as [e|r|r s e|e c cs] eqn:Hgeo; try discriminate Htype.
    repeat split; intros;
      unfold path_v1.mirror, path_v1.move, path_v1.moveRelative, path_v1.rotate,
        path_v1.scale;
      cbn [geometry set_origin]; rewrite ?Hgeo;
      repeat match goal with
             | Hguard : _ = false |- _ => rewrite Hguard
             end;
      reflexivity.
Qed.

(** X22: on every path that is not a curve, the second state of the
    module does what the module does now, for all six operations.  On a
    curve its [clone] and [mirror] return null, and its [move],
    [moveRelative], [rotate] and [scale] change the origin only. *)
Theorem path_v2_agrees (p : IPath num) :
  (type p <> pathType.Bezier ->
   path.clone p = path_v2.clone p
   /\ (forall mirrorX mirrorY newId,
         path.mirror (Some p) mirrorX mirrorY
         = path_v2.mirror (Some p) mirrorX mirrorY newId)
   /\ (forall origin_, path.move (Some p) origin_ = path_v2.move (Some p) origin_)
   /\ (forall delta subtract,
         path.moveRelative (Some p) delta subtract
         = path_v2.moveRelative (Some p) delta subtract)
   /\ (forall angleInDegrees rotationOrigin,
         path.rotate (Some p) angleInDegrees rotationOrigin
         = path_v2.rotate (Some p) angleInDegrees rotationOrigin)
   /\ (forall scaleValue, path.scale (Some p) scaleValue = path_v2.scale (Some p) scaleValue))
  /\
  (type p = pathType.Bezier ->
   path_v2.clone p = None
   /\ (forall mirrorX mirrorY newId, path_v2.mirror (Some p) mirrorX mirrorY newId = None)
   /\ (forall origin_, path_v2.move (Some p) origin_ = Some (set_origin origin_ p))
   /\ (forall delta subtract,
         path_v2.moveRelative (Some p) (Some delta) subtract
         = Some (set_origin (point.add (origin p) delta subtract) p))
   /\ (forall angleInDegrees rotationOrigin,
         (angleInDegrees == nlit 0) = false ->
         path_v2.rotate (Some p) angleInDegrees rotationOrigin
         = Some (set_origin (point.rotate (origin p) angleInDegrees rotationOrigin) p))
   /\ (forall scaleValue,
         (scaleValue == nlit 1) = false ->
         path_v2.scale (Some p) scaleValue
         = Some (set_origin (point.scale (origin p) scaleValue) p))).
Proof.
  unfold type. split; intros Htype.
  - destruct (geometry p) as [e|r|r s e|e c cs] eqn:Hgeo; try (contradiction Htype; reflexivity).
    + repeat split; intros; try (destruct delta);
        unfold path.clone, path_v2.clone, path.copyLayer, path_v2.copyLayer,
          path.mirror, path.mirrorMap, path.mirrorMap_Line, path_v2.mirror, path_v2.mirrorMap,
          path.move, path.moveMap, path.movePoint, path_v2.move, path_v2.moveMap,
          path.moveRelative, path.moveRelativeMap, path_v2.moveRelative,
          path_v2.moveRelativeMap,
          path.rotate, path.rotateMap, path_v2.rotate, path_v2.rotateMap,
          path.scale, path.scaleMap, path_v2.scale, path_v2.scaleMap;
        cbn [geometry set_origin]; rewrite ?Hgeo; reflexivity.
    + repeat split; intros; try (destruct delta);
        unfold path.clone, path_v2.clone, path.copyLayer, path_v2.copyLayer,
          path.mirror, path.mirrorMap, path.mirrorMap_Circle, path_v2.mirror,
          path_v2.mirrorMap,
          path.move, path.moveMap, path.movePoint, path_v2.move, path_v2.moveMap,
          path.moveRelative, path.moveRelativeMap, path_v2.moveRelative,
          path_v2.moveRelativeMap,
          path.rotate, path.rotateMap, path_v2.rotate, path_v2.rotateMap,
          path.scale, path.scaleMap, path_v2.scale, path_v2.scaleMap;
        cbn [geometry set_origin]; rewrite ?Hgeo; reflexivity.
    + repeat split; intros; try (destruct delta);
        unfold path.clone, path_v2.clone, path.copyLayer, path_v2.copyLayer,
          path.mirror, path.mirrorMap, path.mirrorMap_Arc, path_v2.mirror, path_v2.mirrorMap,
          path.move, path.moveMap, path.movePoint, path_v2.move, path_v2.moveMap,
          path.moveRelative, path.moveRelativeMap, path_v2.moveRelative,
          path_v2.moveRelativeMap,
          path.rotate, path.rotateMap, path_v2.rotate, path_v2.rotateMap,
          path.scale, path.scaleMap, path_v2.scale, path_v2.scaleMap;
        cbn [geometry set_origin]; rewrite ?Hgeo; reflexivity.
  - destruct (geometry p) as [e|r|r s e|e c cs] eqn:Hgeo; try discriminate Htype.
    repeat split; intros;
      unfold path_v2.clone, path_v2.copyLayer, path_v2.mirror, path_v2.mirrorMap,
        path_v2.move, path_v2.moveMap, path_v2.moveRelative, path_v2.moveRelativeMap,
        path_v2.rotate, path_v2.rotateMap, path_v2.scale, path_v2.scaleMap;
      cbn [geometry set_origin]; rewrite ?Hgeo;
      repeat match goal with
             | Hguard : _ = false |- _ => rewrite Hguard
             end;
      reflexivity.
Qed.

End Versions.

Section ExtendObject.
Context {V : Type}.

(** X23: [extendObject] gives the target every property of [other] that
    is not [undefined], and leaves the rest of the target alone: after the
    call a property of the target holds the value [other] has for it, if
    that is defined, and else what it held before. *)
Theorem extendObject_lookup (target other : gmap string (option V)) :
  exists extended : gmap string (option V),
    MakerJs.extendObject (Some target) (Some other) = Some extended
    /\ forall key : string,
         extended !! key
         = match other !! key with
           | Some (Some v) => Some (Some v)
           | _ => target !! key
           end.
Proof.
  eexists. split; [reflexivity|].
  apply (map_fold_weak_ind
           (fun (r m : gmap string (option V)) =>
              forall key : string,
                r !! key = match m !! key with
                           | Some (Some v) => Some (Some v)
                           | _ => target !! key
                           end)
           MakerJs.extendObject_step target).
  - intros key. rewrite lookup_empty. reflexivity.
  - intros i x m r Hfresh IH key.
    destruct (decide (i = key)) as [->|Hdiffer].
    + rewrite lookup_insert_eq. destruct x as [v|]; unfold MakerJs.extendObject_step.
      * rewrite lookup_insert_eq. reflexivity.
      * rewrite IH, Hfresh. reflexivity.
    + rewrite (lookup_insert_ne m) by exact Hdiffer.
      destruct x as [v|]; unfold MakerJs.extendObject_step.
      * rewrite lookup_insert_ne by exact Hdiffer. apply IH.
      * apply IH.
Qed.

End ExtendObject.

(** ** The output of the exporter *)

Section Append.
Variable inherited : string -> bool.

(** The values of the calls that name the layer [l], in order. *)
Local Abbreviation onLayer l calls :=
  (List.map fst
     (List.filter (fun c : string * option string => bool_decide (snd c = Some l)) calls)).

(** The values of the calls with a falsy layer, in order. *)
Local Abbreviation onNoLayer calls :=
  (List.map fst
     (List.filter
        (fun c : string * option string =>
           bool_decide (snd c = None \/ snd c = Some EmptyString))
        calls)).

Lemma appendAll_snoc (calls : list (string * option string)) (c : string * option string) :
  exporter.appendAll inherited (calls ++ [c])
  = match exporter.appendAll inherited calls with
    | Some out => exporter.append inherited (fst c) (snd c) out
    | None => None
    end.
Proof. unfold exporter.appendAll. rewrite List.fold_left_app. reflexivity. Qed.

Lemma onLayer_named (l : string) (calls : list (string * option string)) :
  onLayer l calls <> [] -> exists v, In (v, Some l) calls.
Proof.
  induction calls as [|[v layer] calls IH]; cbn [List.filter List.map snd].
  - intros Hne. contradiction Hne. reflexivity.
  - case_bool_decide as Hlayer.
    + intros _. cbn [snd] in Hlayer. subst layer. exists v. left. reflexivity.
    + intros Hne. destruct (IH Hne) as [v' Hv']. exists v'. right. exact Hv'.
Qed.

(** X24: a sequence of calls of [append], starting from the empty output,
    throws exactly when one of the calls names a layer that is a property
    name of [Object.prototype].  When none does, the top-level elements
    are the values appended with a falsy layer (none, or the empty
    string), in the order of the calls, each layer holds the values
    appended with its name, in the order of the calls, and a layer that
    was never named has no entry. *)
Theorem append_calls (calls : list (string * option string)) :
  match exporter.appendAll inherited calls with
  | Some out =>
      (forall v l, In (v, Some l) calls -> l <> EmptyString -> inherited l = false)
      /\ exporter.elements out = onNoLayer calls
      /\ forall l : string,
           l <> EmptyString ->
           exporter.layers out !! l
           = match onLayer l calls with
             | [] => None
             | values => Some values
             end
  | None =>
      exists v l, In (v, Some l) calls /\ l <> EmptyString /\ inherited l = true
  end.
Proof.
  induction calls as [|c calls IH] using List.rev_ind.
  - cbn. split; [intros v l []|]. split; [reflexivity|]. intros l _. apply lookup_empty.
  - rewrite appendAll_snoc.
    destruct (exporter.appendAll inherited calls) as [out|].
    2:{ destruct IH as (v & l & Hin & Hl & Hinherited).
        exists v, l. split; [|split; assumption].
        apply List.in_or_app. left. exact Hin. }
    destruct IH as (IHnames & IHelements & IHlayers).
    assert (forall l, c.2 = Some l -> l <> EmptyString ->
            inherited l = false ->
            forall v l', In (v, Some l') (calls ++ [c]) -> l' <> EmptyString ->
                         inherited l' = false) as Hnames_named.
    { intros l Hc Hl Hfalse v l' Hin Hl'.
      apply List.in_app_or in Hin. destruct Hin as [Hin|[Heq|[]]].
      - exact (IHnames v l' Hin Hl').
      - subst c. cbn [snd] in Hc. injection Hc as <-. exact Hfalse. }
    destruct c as [value [layer|]]; cbn [fst snd exporter.append].
    + destruct (decide (layer = EmptyString)) as [->|Hnamed].
      * split; [|split].
        -- intros v l Hin Hl. apply List.in_app_or in Hin.
           destruct Hin as [Hin|[Heq|[]]]; [exact (IHnames v l Hin Hl)|].
           injection Heq as _ <-. contradiction Hl. reflexivity.
        -- cbn [exporter.elements].
           rewrite List.filter_app, List.map_app, <- IHelements. cbn [List.filter snd].
           case_bool_decide as Hfalsy; [reflexivity|].
           contradiction Hfalsy. right. reflexivity.
        -- intros l Hl. cbn [exporter.layers].
           rewrite List.filter_app, List.map_app. cbn [List.filter snd].
           case_bool_decide as Hlayer; [congruence|].
           cbn [List.map]. rewrite List.app_nil_r. exact (IHlayers l Hl).
      * destruct (exporter.layers out !! layer) as [inLayer|] eqn:Hown.
        -- assert (inherited layer = false) as Hfalse.
           { rewrite (IHlayers layer Hnamed) in Hown.
             destruct (onLayer_named layer calls) as [v Hv].
             - intros Hempty. rewrite Hempty in Hown. discriminate Hown.
             - exact (IHnames v layer Hv Hnamed). }
           split; [exact (Hnames_named layer eq_refl Hnamed Hfalse)|]. split.
           ++ cbn [exporter.elements].
              rewrite List.filter_app, List.map_app, <- IHelements. cbn [List.filter snd].
              case_bool_decide as Hfalsy.
              ** destruct Hfalsy as [Hfalsy|Hfalsy]; congruence.
              ** cbn [List.map]. rewrite List.app_nil_r. reflexivity.
           ++ intros l Hl. cbn [exporter.layers].
              rewrite List.filter_app, List.map_app. cbn [List.filter snd].
              case_bool_decide as Hlayer.
              ** injection Hlayer as ->. rewrite lookup_insert_eq.
                 rewrite (IHlayers l Hl) in Hown. cbn [List.map fst].
                 destruct (onLayer l calls) as [|v vs]; [discriminate Hown|].
                 injection Hown as <-. reflexivity.
              ** rewrite lookup_insert_ne by congruence.
                 cbn [List.map]. rewrite List.app_nil_r. exact (IHlayers l Hl).
        -- destruct (inherited layer) eqn:Hinherited.
           ++ exists value, layer. split; [|split; [exact Hnamed|exact Hinherited]].
              apply List.in_or_app. right. left. reflexivity.
           ++ split; [exact (Hnames_named layer eq_refl Hnamed Hinherited)|]. split.
              ** cbn [exporter.elements].
                 rewrite List.filter_app, List.map_app, <- IHelements. cbn [List.filter snd].
                 case_bool_decide as Hfalsy.
                 --- destruct Hfalsy as [Hfalsy|Hfalsy]; congruence.
                 --- cbn [List.map]. rewrite List.app_nil_r. reflexivity.
              ** intros l Hl. cbn [exporter.layers].
                 rewrite List.filter_app, List.map_app. cbn [List.filter snd].
                 case_bool_decide as Hlayer.
                 --- injection Hlayer as ->. rewrite lookup_insert_eq.
                     rewrite (IHlayers l Hl) in Hown. cbn [List.map fst].
                     destruct (onLayer l calls) as [|v vs]; [reflexivity|discriminate Hown].
                 --- rewrite lookup_insert_ne by congruence.
                     cbn [List.map]. rewrite List.app_nil_r. exact (IHlayers l Hl).
    + split; [|split].
      * intros v l Hin Hl. apply List.in_app_or in Hin.
        destruct Hin as [Hin|[Heq|[]]]; [exact (IHnames v l Hin Hl)|discriminate Heq].
      * cbn [exporter.elements].
        rewrite List.filter_app, List.map_app, <- IHelements. cbn [List.filter snd].
        case_bool_decide as Hfalsy; [reflexivity|].
        contradiction Hfalsy. left. reflexivity.
      * intros l Hl. cbn [exporter.layers].
        rewrite List.filter_app, List.map_app. cbn [List.filter snd].
        case_bool_decide as Hlayer; [discriminate Hlayer|].
        cbn [List.map]. rewrite List.app_nil_r. exact (IHlayers l Hl).
Qed.

End Append.

(** ** More laws of the exact instance *)

Section ExactLawsMore.
Local Open Scope Qc_scope.

Lemma exact_ltb_lt (a b : Qc) : Exact.ltb a b = true <-> a < b.
Proof.
  unfold Exact.ltb. rewrite negb_true_iff. split.
  - intros Hle. apply Qcnot_le_lt. intros Hba.
    apply Qle_bool_iff in Hba. rewrite Hba in Hle. discriminate Hle.
  - intros Hlt. destruct (Qle_bool b a) eqn:Hle; [|reflexivity].
    apply Qle_bool_iff in Hle. exfalso. exact (Qclt_not_le _ _ Hlt Hle).
Qed.

Lemma exact_abs_opp (a : Qc) : Exact.abs (- a) = Exact.abs a.
Proof.
  unfold Exact.abs. change (Exact.of_Z 0) with 0.
  destruct (Exact.ltb (- a) 0) eqn:Hneg; destruct (Exact.ltb a 0) eqn:Hpos.
  - apply exact_ltb_lt in Hneg. apply exact_ltb_lt in Hpos.
    exfalso. apply (Qclt_not_le _ _ Hneg).
    apply Qclt_le_weak in Hpos. apply Qcopp_le_compat in Hpos. exact Hpos.
  - ring.
  - reflexivity.
  - assert (~ - a < 0) as Hneg' by (intros Hlt; apply exact_ltb_lt in Hlt; congruence).
    assert (~ a < 0) as Hpos' by (intros Hlt; apply exact_ltb_lt in Hlt; congruence).
    apply Qcnot_lt_le in Hneg'. apply Qcnot_lt_le in Hpos'.
    apply (Qcopp_le_compat 0 (- a)) in Hneg'.
    replace (- - a) with a in Hneg' by ring. change (- 0) with 0 in Hneg'.
    assert (a = 0) as -> by (apply Qcle_antisym; assumption).
    reflexivity.
Qed.

Lemma exact_abs_sub (a b : Qc) : Exact.abs (a - b) = Exact.abs (b - a).
Proof.
  replace (a - b) with (- (b - a)) by ring. apply exact_abs_opp.
Qed.

Lemma exact_point_areEqual_sym (w : option Qc) (a b : IPoint Qc) :
  point.areEqual a b w = point.areEqual b a w.
Proof.
  unfold point.areEqual, Model.exact_point_areEqual, Model.point_areEqual.
  rewrite (exact_abs_sub (fst a)), (exact_abs_sub (snd a)). reflexivity.
Qed.

Lemma exact_angle_areEqual_sym (a b : Qc) : angle.areEqual a b = angle.areEqual b a.
Proof.
  unfold angle.areEqual, Model.exact_angle_areEqual, Model.angle_areEqual.
  rewrite exact_abs_sub. reflexivity.
Qed.

Lemma exact_eqb_sym (a b : Qc) : Exact.eqb a b = Exact.eqb b a.
Proof.
  destruct (Exact.eqb a b) eqn:Hab; destruct (Exact.eqb b a) eqn:Hba; try reflexivity.
  - apply exact_eqb_eq in Hab. subst b.
    assert (Exact.eqb a a = true) as Haa by (apply exact_eqb_eq; reflexivity). congruence.
  - apply exact_eqb_eq in Hba. subst b.
    assert (Exact.eqb a a = true) as Haa by (apply exact_eqb_eq; reflexivity). congruence.
Qed.

Lemma exact_point_areEqual_refl (x : IPoint Qc) : point.areEqual x x None = true.
Proof.
  unfold point.areEqual, Model.exact_point_areEqual, Model.point_areEqual.
  cbn [default from_option id].
  rewrite !exact_leb_refl_abs_zero; [reflexivity| |]; vm_compute; discriminate.
Qed.

Lemma exact_angle_areEqual_refl (a : Qc) : angle.areEqual a a = true.
Proof.
  unfold angle.areEqual, Model.exact_angle_areEqual, Model.angle_areEqual.
  apply exact_leb_refl_abs_zero. vm_compute. discriminate.
Qed.

Lemma exact_point_clone (x : IPoint Qc) : point.clone x = x.
Proof. destruct x. reflexivity. Qed.

Lemma exact_point_mirror_none (x : IPoint Qc) : point.mirror x false false = x.
Proof. destruct x. reflexivity. Qed.

Lemma exact_subtract_add (a d : IPoint Qc) : point.subtract (point.add a d false) a = d.
Proof.
  destruct a as [u v], d as [x y].
  unfold point.subtract, point.add, Model.exact_point_subtract, Model.exact_point_add,
    Model.point_subtract, Model.point_add.
  cbn [fst snd nadd nsub Exact.number]. f_equal; ring.
Qed.

Lemma exact_add_add_subtract (o e d : IPoint Qc) :
  point.add (point.add o d false) (point.subtract e o) false = point.add e d false.
Proof.
  destruct o as [u v], e as [x y], d as [s t].
  unfold point.subtract, point.add, Model.exact_point_subtract, Model.exact_point_add,
    Model.point_subtract, Model.point_add.
  cbn [fst snd nadd nsub Exact.number]. f_equal; ring.
Qed.

End ExactLawsMore.

(** ** More worked inputs *)

Section WorkedMore.
Import Scenario.

(** The arc from 350 to 10 degrees mirrored on no axis ends at 370. *)
Lemma mirror_no_axis_arc_350_10 :
  path.mirror (Some arc_350_10) false false
  = Some {| origin := (q 0, q 0); layer := None; geometry := OfArc (q 5) (q 350) (q 370) |}.
Proof.
  exact (mirror_no_axis_arc arc_350_10 eq_refl exact_point_mirror_none
           (fun a => eq_refl)).
Defined.

(** The quadratic curve scaled by 2. *)
Lemma scale_keeps_control_arity :
  exists end' control' controls',
    geometry {| origin := (q 0, q 0); layer := Some "cut"%string;
                geometry := OfBezier (q 20, q 0) (Some (q 10, q 20)) [] |}
    = OfBezier end' control' controls'
    /\ (is_Some control' <-> is_Some (Some (q 5, q 10)))
    /\ length controls' = length (@nil (IPoint Qc)).
Proof.
  refine (transforms_keep_control_arity (bez := bezier_0_10) eq_refl _).
  right. right. right. exists (q 2). vm_compute. reflexivity.
Defined.

(** The line from [0, 0] to [10, 0] moved to [1, 1] and then to [2, 3]. *)
Lemma move_move_line_0_10 :
  path.move (path.move (Some line_0_10) (q 1, q 1)) (q 2, q 3)
  = path.move (Some line_0_10) (q 2, q 3).
Proof.
  exact (move_move line_0_10 (q 1, q 1) (q 2, q 3) exact_subtract_add).
Defined.

(** The same line moved by [1, 2]. *)
Lemma move_is_moveRelative_line_0_10 :
  path.move (Some line_0_10) (point.add (origin line_0_10) (q 1, q 2) false)
  = path.moveRelative (Some line_0_10) (Some (q 1, q 2)) false.
Proof.
  exact (move_is_moveRelative line_0_10 (q 1, q 2) exact_add_add_subtract).
Defined.

(** In IEEE doubles, the circle of radius 3 about [1, 2] scaled by 2 and
    then by one half: no product rounds, the product of the factors is 1,
    and the third call returns at its test. *)
Lemma scale_scale_circle_3 :
  path.scale (path.scale (Some circle_ieee_3) (nlit 2)) 0.5%float
  = path.scale (Some circle_ieee_3) (nlit 2 * 0.5%float)%js.
Proof.
  apply (scale_scale (p := circle_ieee_3) (a := nlit 2) (b := 0.5%float)).
  - intros Hone. vm_compute in Hone. discriminate Hone.
  - intros Hone. vm_compute in Hone. discriminate Hone.
  - intros x [<-|[]]. vm_compute. reflexivity.
  - vm_compute. reflexivity.
  - intros _. split.
    + intros x [<-|[]]. vm_compute. reflexivity.
    + vm_compute. reflexivity.
Defined.

(** The line from [0, 0] to [10, 0] drawn at scale 1 from [1, 1]. *)
Lemma fixPath_line_0_10 :
  exporter.fixPath (q 1) (Some line_0_10) (Some (q 1, q 1))
  = Some {| origin := (q 1, q 1); layer := None; geometry := OfLine (q 11, q 1) |}.
Proof.
  exact (fixPath_fixPoint (q 1) line_0_10 (q 1, q 1)
           (fun _ x => exact_point_scale_one x)).
Defined.

(** An angle of break of 0 on the arc from 350 to 10 degrees. *)
Lemma breakAtPoint_angle_0 :
  path.breakAtPoint (Some arc_350_10) (Some (q 5, q 0)) (Some (q 0)) None
  = path.breakAtPoint (Some arc_350_10) (Some (q 5, q 0)) None None.
Proof.
  refine (breakAtPoint_falsy_angle arc_350_10 (q 5, q 0) (q 0) None _).
  vm_compute. reflexivity.
Defined.

(** The circle of radius 3 broken twice at [3, 0]. *)
Lemma breakAtPoint_circle_3_twice :
  exists arc : IPath Qc,
    path.breakAtPoint (Some circle_3) (Some (q 3, q 0)) None None = (Some arc, None)
    /\ type arc = pathType.Arc
    /\ path.breakAtPoint (Some arc) (Some (q 3, q 0)) None None = (Some arc, None).
Proof.
  refine (breakAtPoint_circle_twice circle_3 (q 3, q 0) None None None eq_refl _).
  vm_compute. reflexivity.
Defined.

(** The two pieces of the line from [0, 0] to [10, 0] broken at [5, 0]. *)
Lemma breakAtPoint_piece_line_0_10 :
  type {| origin := (q 5, q 0); layer := None; geometry := OfLine (q 10, q 0) |}
  = type line_0_10
  /\ layer {| origin := (q 5, q 0); layer := None; geometry := OfLine (q 10, q 0) |}
     = layer line_0_10
  /\ type {| origin := (q 0, q 0); layer := None; geometry := OfLine (q 5, q 0) |}
     = type line_0_10
  /\ layer {| origin := (q 0, q 0); layer := None; geometry := OfLine (q 5, q 0) |}
     = layer line_0_10
  /\ origin {| origin := (q 0, q 0); layer := None; geometry := OfLine (q 5, q 0) |}
     = origin line_0_10.
Proof.
  refine (breakAtPoint_piece line_0_10 (Some (q 5, q 0)) None None _ _).
  - discriminate.
  - vm_compute. reflexivity.
Defined.

(** The arc from 0 to 90 degrees broken at 45 degrees: the offset is 0. *)
Lemma breakAtPoint_arc_0_90_inversion :
  measure.isAngleEqual (q 45) (q 0) = false
  /\ measure.isAngleEqual (q 45) (q 90) = false
  /\ exists t : Qc,
       In t [q 0; q 1; q (-1)]
       /\ measure.isBetween (q 45 + q 360 * t)%js (angle.noRevolutions (q 0))
            (angle.noRevolutions (q 0) + angle.ofArcEnd arc_0_90 - q 0)%js true = true
       /\ geometry {| origin := (q 0, q 0); layer := None;
                      geometry := OfArc (q 5) (q 0) (q 45) |}
          = OfArc (q 5) (q 0) (q 0 + q 45 + q 360 * t - angle.noRevolutions (q 0))%js
       /\ geometry {| origin := (q 0, q 0); layer := None;
                      geometry := OfArc (q 5) (q 45) (q 90) |}
          = OfArc (q 5) (q 0 + q 45 + q 360 * t - angle.noRevolutions (q 0))%js (q 90).
Proof.
  refine (breakAtPoint_arc_inversion arc_0_90 (q 1, q 1) (Some (q 45)) None eq_refl _).
  vm_compute. reflexivity.
Defined.

(** The line from [0, 0] to [10, 0] against the line from [10, 0] to
    [0, 0]. *)
Lemma areEqual_line_0_10_reversed :
  path.areEqual line_0_10 line_0_10 None
  = path.areEqual line_0_10
      {| origin := (q 10, q 0); layer := None; geometry := OfLine (q 0, q 0) |} None.
Proof.
  exact (areEqual_line_undirected line_0_10 line_0_10 None eq_refl).
Defined.

(** An arc against a circle, in both orders. *)
Lemma areEqual_sym_arc_circle :
  path.areEqual arc_0_90 circle_3 None = path.areEqual circle_3 arc_0_90 None.
Proof.
  exact (areEqual_sym arc_0_90 circle_3 None (exact_point_areEqual_sym None)
           exact_angle_areEqual_sym exact_eqb_sym).
Defined.

(** The clone of the arc from 0 to 90 degrees. *)
Lemma clone_arc_0_90 :
  exists copy : IPath Qc,
    path.clone arc_0_90 = Some copy
    /\ layer copy = layer arc_0_90
    /\ path.areEqual arc_0_90 copy None = Some (q 5 == q 5)%js.
Proof.
  exact (clone_areEqual arc_0_90 None exact_point_clone exact_point_areEqual_refl
           exact_angle_areEqual_refl).
Defined.

(** The line of the store, listed once, during the task; the circle is
    listed twice. *)
Lemma mapMove_entry_store :
  path.heap (path.mapMove false store_twice) !! 0%nat
  = path.moveRelative (Some line_0_10) (Some (q 1, q 2)) false.
Proof.
  refine (mapMove_entry false store_twice (k := 0%nat) (r := 0%nat) eq_refl _).
  intros [|[|[|j]]] Hj; try reflexivity; discriminate Hj.
Defined.

(** The quadratic curve moved by [1, 2] and back. *)
Lemma moveRelative_round_trip_bezier_0_10 :
  path.moveRelative (path.moveRelative (Some bezier_0_10) (Some (q 1, q 2)) false)
    (Some (q 1, q 2)) true
  = Some bezier_0_10.
Proof.
  exact (moveRelative_round_trip bezier_0_10 (q 1, q 2) exact_add_subtract).
Defined.

(** The circle of radius 3 broken at [3, 0], where the polar angle is 0. *)
Lemma isPathArc_circle_3 :
  exists arc : IPath Qc,
    path.breakAtPoint (Some circle_3) (Some (q 3, q 0)) None None = (Some arc, None)
    /\ type arc = pathType.Arc
    /\ MakerJs.isPathArc (Some arc) = false
    /\ MakerJs.isPathCircle (Some arc) = false.
Proof.
  refine (isPathArc_after_break circle_3 (q 3, q 0) None None eq_refl _).
  vm_compute. reflexivity.
Defined.

(** Two calls of [append] on a layer of their own, and a call that names
    [toString], which every plain object inherits. *)
Lemma append_toString :
  let inherited l := bool_decide (l = "toString"%string) in
  exporter.appendAll inherited
    [("a", Some "cut"); ("b", None); ("c", Some "cut")]%string
  = Some {| exporter.elements := ["b"%string];
            exporter.layers := {[ "cut"%string := ["a"; "c"]%string ]} |}
  /\ exporter.appendAll inherited
       [("a", Some "cut"); ("b", Some "toString")]%string
     = None.
Proof. split; vm_compute; reflexivity. Qed.

End WorkedMore.
